(** * nvim-go: the Delve debugger session controller

    A shallow embedding of [commands/delve.go] (and of the sibling
    [commands/delve/delve.go] where a claim names it): the breakpoint
    registry [delve.breakpoints], the hit-count reconciliation loop of
    [delveContinue] / [delveNext], breakpoint naming, the buffer writer
    [printBuffer], [delveKill] / [delveDetach], the function-list
    completion and the goroutine-spawning command wrappers; and of the
    buffer helpers of [nvim/buffer.go] ([ToByteSlice], [ToBufferLines],
    [ByteOffset], [lineCount], [Write], [Truncate], [Reset]).

    Go values are modelled as follows.
    - [int], [uint64]: [Z]; no arithmetic of the modelled code can wrap.
    - [string], [[]byte]: [string] (a list of bytes).
    - [map[int]*delveapi.Breakpoint]: [gmap Z Breakpoint].  Every pointer
      stored in the map comes from its own RPC decoding and is stored under
      one key only, so no two entries alias and a map of values is exact.
    - [error]: [option string], [None] being [nil]; a function returning
      [(T, error)] returns a pair, as in Go, since callers store the first
      component before they look at the second.
    - a run-time panic (nil dereference, index out of range): the
      constructor [Panic] of [exec]; a panicking goroutine never returns.
    - the package-level variables ([delve], [server], [breaks], ...): one
      record [Globals] threaded through the monad [M]. *)

From Stdlib Require Import ZArith Lia Ascii String List.
From stdpp Require Import base decidable option list gmap strings pretty sorting.

Local Open Scope Z_scope.

(** ** Outcomes of Go calls *)

Definition error := option string.
Definition nil : error := None.

Inductive exec (A : Type) : Type :=
| Done (a : A)          (* the call returned [a] *)
| Panic (why : string). (* run-time panic: the call never returns *)
Arguments Done {A} a.
Arguments Panic {A} why.

(** Code running against a mutable store [S]: the store is handed back in
    every case, with whatever was written before a panic. *)
Definition M (S A : Type) : Type := S -> exec A * S.

Definition ret {S A} (a : A) : M S A := fun s => (Done a, s).

Definition bind {S A B} (m : M S A) (k : A -> M S B) : M S B :=
  fun s => match m s with
           | (Done a, s') => k a s'
           | (Panic why, s') => (Panic why, s')
           end.

Definition panic {S A} (why : string) : M S A := fun s => (Panic why, s).
Definition get {S} : M S S := fun s => (Done s, s).
Definition modify {S} (f : S -> S) : M S unit := fun s => (Done tt, f s).

(** stdpp's monad notations ([x ← m; k], [m;; k]) are used for [M S]. *)
Global Instance M_ret {S} : MRet (M S) := fun A a => ret a.
Global Instance M_bind {S} : MBind (M S) := fun A B k m => bind m k.

(** ** The Go [strings] package, as far as the breakpoint naming uses it *)

Module Strings.

(** [strings.Split(s, sep)] for a one-byte separator: always at least
    one piece, one more piece than there are separators. *)
Fixpoint Split (s : string) (sep : ascii) : list string :=
  match s with
  | EmptyString => [EmptyString]
  | String c r =>
      if Ascii.eqb c sep then EmptyString :: Split r sep
      else match Split r sep with
           | h :: t => String c h :: t
           | [] => [String c EmptyString]
           end
  end.

(** [strings.Join(a, sep)]. *)
Fixpoint Join (a : list string) (sep : string) : string :=
  match a with
  | [] => EmptyString
  | [x] => x
  | x :: rest => x +:+ sep +:+ Join rest sep
  end.

Definition is_ascii (c : ascii) : bool := (N_of_ascii c <? 128)%N.

Definition is_lower (c : ascii) : bool :=
  ((97 <=? N_of_ascii c) && (N_of_ascii c <=? 122))%N.

Definition upper_byte (c : ascii) : ascii :=
  if is_lower c then ascii_of_N (N_of_ascii c - 32) else c.

(** [strings.ToUpper] applied to the one-byte string [c].  An ASCII byte
    is mapped to its upper case.  A byte of 0x80 or more is not a valid
    UTF-8 string on its own: it decodes to the replacement rune U+FFFD,
    which is written back as its three-byte encoding. *)
Definition ToUpper1 (c : ascii) : string :=
  if is_ascii c then String (upper_byte c) EmptyString
  else String (ascii_of_N 239) (String (ascii_of_N 191)
         (String (ascii_of_N 189) EmptyString)).

End Strings.

(** The three lines that derive a breakpoint name from a function symbol
    ([delveBreakpoint], case 1, and [parseArgs], case 1):
<<
    bpslice := strings.Split(args[0], ".")
    bpslice[1] = fmt.Sprintf("%s%s", strings.ToUpper(bpslice[1][:1]), bpslice[1][1:])
    bpName = strings.Join(bpslice, "")
>>
    [bpslice[1]] panics when the symbol has no dot, and [bpslice[1][:1]]
    panics when nothing follows the first dot. *)
Definition deriveName (sym : string) : exec string :=
  let bpslice := Strings.Split sym "."%char in
  match bpslice !! 1%nat with
  | None => Panic "index out of range [1]"
  | Some EmptyString => Panic "slice bounds out of range [:1] with length 0"
  | Some (String c rest) =>
      let bpslice := <[1%nat := Strings.ToUpper1 c +:+ rest]> bpslice in
      Done (Strings.Join bpslice EmptyString)
  end.

(** The rule in the words of the specification: the dots are removed and
    the first letter after each dot is upper-cased. *)
Fixpoint spec_name_from (after_dot : bool) (s : string) : string :=
  match s with
  | EmptyString => EmptyString
  | String c r =>
      if Ascii.eqb c "."%char then spec_name_from true r
      else String (if after_dot then Strings.upper_byte c else c)
                  (spec_name_from false r)
  end.

Definition spec_name (sym : string) : string := spec_name_from false sym.

(** A symbol with its dots removed. *)
Fixpoint remove_dots (s : string) : string :=
  match s with
  | EmptyString => EmptyString
  | String c r =>
      if Ascii.eqb c "."%char then remove_dots r else String c (remove_dots r)
  end.

Fixpoint has_dot (s : string) : bool :=
  match s with
  | EmptyString => false
  | String c r => Ascii.eqb c "."%char || has_dot r
  end.


(** ** The editor: a model of the Neovim API calls the controller makes

    The editor is an external collaborator.  A buffer is its list of lines
    and its ['modifiable'] option, a window shows a buffer and holds a
    cursor; handles that are not in the maps are invalid and make a call
    fail with an error, as the API does. *)

Module Nvim.

Record Buf := { lines : list string; modifiable : bool }.
Record Win := { wbuffer : Z; cursor : Z * Z }.

Record Vim := {
  buffers : gmap Z Buf;
  windows : gmap Z Win;
  messages : list string   (* what was echoed to the user *)
}.

Definition set_buffers (f : gmap Z Buf -> gmap Z Buf) (v : Vim) : Vim :=
  {| buffers := f (buffers v); windows := windows v; messages := messages v |}.
Definition set_windows (f : gmap Z Win -> gmap Z Win) (v : Vim) : Vim :=
  {| buffers := buffers v; windows := f (windows v); messages := messages v |}.
Definition add_message (msg : string) (v : Vim) : Vim :=
  {| buffers := buffers v; windows := windows v;
     messages := messages v ++ [msg] |}.

Definition len {A} (l : list A) : Z := Z.of_nat (length l).

(** An index of the API: negative values count from the end, -1 being
    the index one past the last line. *)
Definition index (n i : Z) : Z := if i <? 0 then n + 1 + i else i.

Definition BufferLineCount (b : Z) : M Vim (Z * error) :=
  v ← get;
  match buffers v !! b with
  | Some bf => mret (len (lines bf), nil)
  | None => mret (0, Some "Invalid buffer id"%string)
  end.

Definition BufferLines (b : Z) (start end_ : Z) (strict : bool)
  : M Vim (list string * error) :=
  v ← get;
  match buffers v !! b with
  | None => mret ([], Some "Invalid buffer id"%string)
  | Some bf =>
      let n := len (lines bf) in
      let s := index n start in
      let e := index n end_ in
      if strict && ((s <? 0) || (n <? s) || (e <? 0) || (n <? e))
      then mret ([], Some "Index out of bounds"%string)
      else
        let s := Z.max 0 (Z.min n s) in
        let e := Z.max 0 (Z.min n e) in
        mret (take (Z.to_nat (e - s)) (drop (Z.to_nat s) (lines bf)), nil)
  end.

(** A buffer is never left without a line. *)
Definition at_least_one_line (ls : list string) : list string :=
  match ls with [] => [EmptyString] | _ => ls end.

Definition SetBufferLines (b : Z) (start end_ : Z) (strict : bool)
    (replacement : list string) : M Vim error :=
  v ← get;
  match buffers v !! b with
  | None => mret (Some "Invalid buffer id"%string)
  | Some bf =>
      let n := len (lines bf) in
      let s := index n start in
      let e := index n end_ in
      if strict && ((s <? 0) || (n <? s) || (e <? 0) || (n <? e))
      then mret (Some "Index out of bounds"%string)
      else if negb (modifiable bf)
      then mret (Some "Buffer is not 'modifiable'"%string)
      else
        let s := Z.max 0 (Z.min n s) in
        let e := Z.max s (Z.min n e) in
        let ls := take (Z.to_nat s) (lines bf) ++ replacement
                    ++ drop (Z.to_nat e) (lines bf) in
        modify (set_buffers
          <[b := {| lines := at_least_one_line ls;
                    modifiable := modifiable bf |}]>);;
        mret nil
  end.

(** [SetBufferOption(b, "modifiable", value)]. *)
Definition SetBufferOption_modifiable (b : Z) (value : bool) : M Vim error :=
  v ← get;
  match buffers v !! b with
  | None => mret (Some "Invalid buffer id"%string)
  | Some bf =>
      modify (set_buffers <[b := {| lines := lines bf; modifiable := value |}]>);;
      mret nil
  end.

Definition SetWindowCursor (w : Z) (pos : Z * Z) : M Vim error :=
  v ← get;
  match windows v !! w with
  | None => mret (Some "Invalid window id"%string)
  | Some wn =>
      match buffers v !! wbuffer wn with
      | None => mret (Some "Invalid buffer id"%string)
      | Some bf =>
          if (pos.1 <? 1) || (len (lines bf) <? pos.1)
          then mret (Some "Cursor position outside buffer"%string)
          else
            modify (set_windows
              <[w := {| wbuffer := wbuffer wn; cursor := pos |}]>);;
            mret nil
      end
  end.

End Nvim.

Import Nvim.

(** [printBuffer(v, b, append, data)] of [commands/delve.go]. *)
Definition printBuffer (b : Z) (append : bool) (data : list string)
  : M Vim (Z * error) :=
  (* var start int; if append { start, err = v.BufferLineCount(b) ... } *)
  '(start, err) ← (if append then BufferLineCount b else mret (0, nil));
  match err with
  | Some e => mret (0, Some e)
  | None =>
      (* if start == 1 { buf, err := v.BufferLines(b, 0, -1, true) ... } *)
      r ← (if start =? 1 then
             '(buf, err) ← BufferLines b 0 (-1) true;
             match err with
             | Some e => mret (inr e)
             | None =>
                 match buf with
                 | [] => panic "index out of range [0] with length 0"
                 | line0 :: _ =>
                     if (String.length line0 =? 0)%nat then mret (inl 0)
                     else mret (inl start)
                 end
             end
           else mret (inl start));
      match r with
      | inr e => mret (0, Some e)
      | inl start =>
          SetBufferOption_modifiable b true;;
          (* return start + len(data), v.SetBufferLines(b, start, -1, true, data)
             and then the deferred SetBufferOption(b, "modifiable", false) *)
          err ← SetBufferLines b start (-1) true data;
          SetBufferOption_modifiable b false;;
          mret (start + len data, err)
      end
  end.

(** Where a write of [printBuffer] starts, in the words of its comments:
    at line 0 when not appending; when appending, after the last line,
    except that a buffer made of one empty line counts as empty. *)
Definition start_of (append : bool) (ls : list string) : Z :=
  if append
  then (if decide (ls = [EmptyString]) then 0 else len ls)
  else 0.

(** ** [fmt.Sprintf] verbs *)

Module Fmt.

Definition hex_digit (d : N) : ascii :=
  ascii_of_N (if (d <? 10)%N then 48 + d else 87 + d).

Fixpoint hex_go (fuel : nat) (n : N) (acc : string) : string :=
  match fuel with
  | O => acc
  | S fuel =>
      let acc := String (hex_digit (n mod 16)) acc in
      if (n <? 16)%N then acc else hex_go fuel (n / 16) acc
  end.

(** [%d] *)
Definition d (n : Z) : string := pretty n.

(** [%#x] of an unsigned value *)
Definition x (n : Z) : string :=
  let n := Z.to_N n in
  ("0x" +:+ hex_go (S (N.to_nat (N.log2 n))) n EmptyString)%string.

End Fmt.

(** ** The Delve API types ([delveapi]), with the fields the controller
    reads or writes *)

Record Breakpoint := {
  ID : Z;
  Name : string;
  Addr : Z;
  File : string;
  Line : Z;
  FunctionName : string;
  Tracepoint : bool;
  HitCount : gmap string Z;   (* hits per goroutine *)
  TotalHitCount : Z           (* cumulative hits *)
}.

Record Function := { Function_Name : string }.

Record Thread := {
  Thread_ID : Z;
  Thread_PC : Z;
  Thread_File : string;
  Thread_Line : Z;
  Thread_Function : option Function;
  Thread_GoroutineID : Z;
  Thread_Breakpoint : option Breakpoint
}.

Record DebuggerState := {
  CurrentThread : option Thread;
  Exited : bool;
  ExitStatus : Z
}.

(** The assignments [p.TotalHitCount = n] and [p.HitCount = h] through a
    pointer of the registry. *)
Definition set_TotalHitCount (n : Z) (b : Breakpoint) : Breakpoint :=
  {| ID := ID b; Name := Name b; Addr := Addr b; File := File b;
     Line := Line b; FunctionName := FunctionName b;
     Tracepoint := Tracepoint b; HitCount := HitCount b;
     TotalHitCount := n |}.

Definition set_HitCount (h : gmap string Z) (b : Breakpoint) : Breakpoint :=
  {| ID := ID b; Name := Name b; Addr := Addr b; File := File b;
     Line := Line b; FunctionName := FunctionName b;
     Tracepoint := Tracepoint b; HitCount := h;
     TotalHitCount := TotalHitCount b |}.

(** ** [ByID] and [sort.Sort] *)

(** [func (a ByID) Less(i, j int) bool { return a[i].ID < a[j].ID }] *)
Definition ByID_Less (x y : Breakpoint) : bool := ID x <? ID y.

(** The order [sort.Sort] establishes: no element is [Less] than one
    placed before it. *)
Definition ByID_le (x y : Breakpoint) : Prop := ByID_Less y x = false.

Global Instance ByID_le_dec x y : Decision (ByID_le x y).
Proof. unfold ByID_le. apply _. Defined.

(** [sort.Sort(ByID(breakpoint))].  [sort.Sort] belongs to the Go
    library; it promises a permutation of its input ordered by [Less] and
    nothing about the order of equal elements.  It is modelled by a merge
    sort, and the development uses only those two facts about it. *)
Definition sort_Sort (breakpoint : list Breakpoint) : list Breakpoint :=
  merge_sort ByID_le breakpoint.

(** ** The breakpoint registry and its reconciliation *)

(** The body of [for _, bp := range breakpoint] in [delveContinue] and
    [delveNext], up to the rendering: it runs against
    [delve.breakpoints] and yields the descriptor that is rendered.
    [delve.breakpoints[bp.ID]] is [nil] for an identifier that was never
    registered, and reading [.TotalHitCount] through it panics. *)
Definition reconcile1 (bp : Breakpoint) : M (gmap Z Breakpoint) Breakpoint :=
  bps ← get;
  match bps !! ID bp with
  | None => panic "invalid memory address or nil pointer dereference"
  | Some cached =>
      if decide (TotalHitCount cached ≠ TotalHitCount bp) then
        (* delve.breakpoints[bp.ID].TotalHitCount = bp.TotalHitCount *)
        modify (alter (set_TotalHitCount (TotalHitCount bp)) (ID bp));;
        (* delve.breakpoints[bp.ID].HitCount = bp.HitCount *)
        modify (alter (set_HitCount (HitCount bp)) (ID bp));;
        mret bp
      else
        (* bp = delve.breakpoints[bp.ID] *)
        mret cached
  end.

(** The whole loop: the descriptors rendered, in order. *)
Fixpoint reconcile (breakpoint : list Breakpoint)
  : M (gmap Z Breakpoint) (list Breakpoint) :=
  match breakpoint with
  | [] => mret []
  | bp :: rest =>
      r ← reconcile1 bp;
      rs ← reconcile rest;
      mret (r :: rs)
  end.

(** [fmt.Sprintf("Breakpoint %d\n\tPC=%#x func=%s() File=%s:%d (%d)\n", ...)]
    without the final newline, which only the loops of [delveContinue] and
    [delveNext] add. *)
Definition sbp (bp : Breakpoint) : string :=
  ("Breakpoint " +:+ Fmt.d (ID bp) +:+ String (ascii_of_N 10) (String (ascii_of_N 9)
   ("PC=" +:+ Fmt.x (Addr bp) +:+ " func=" +:+ FunctionName bp +:+ "() File="
    +:+ File bp +:+ ":" +:+ Fmt.d (Line bp) +:+ " (" +:+ Fmt.d (ID bp) +:+ ")")))%string.

Definition newline : ascii := ascii_of_N 10.

(** [bplines], the bytes the loop accumulates. *)
Definition bplines (rendered : list Breakpoint) : string :=
  Strings.Join (map (fun bp => sbp bp +:+ String newline EmptyString) rendered)
    EmptyString.

(** ** The package-level state of [commands/delve.go] *)

(** Modelled from the spec: [nvim.Echomsg] and [nvim.EchohlErr] are in a
    file of the repository's [nvim] package that is not among the sources;
    errors are "returned to the command layer for user-visible display":
    the text is shown to the user and the call itself returns [nil]. *)
Definition Echomsg (msg : string) : M Vim error :=
  modify (add_message msg);; mret nil.

Definition EchohlErr (prefix msg : string) : M Vim error :=
  modify (add_message (prefix +:+ ": " +:+ msg));; mret nil.

Record bufferInfo := {
  buffer : Z;
  window : Z;
  linecount : Z;
  name : string
}.

Definition set_linecount (n : Z) (b : bufferInfo) : bufferInfo :=
  {| buffer := buffer b; window := window b; linecount := n; name := name b |}.

(** [DelveClient].  [breakpoints] is [None] while the map is still [nil]. *)
Record DelveClient := {
  procPid : Z;
  breakpoints : option (gmap Z Breakpoint)
}.

Definition set_breakpoints (m : option (gmap Z Breakpoint)) (d : DelveClient)
  : DelveClient :=
  {| procPid := procPid d; breakpoints := m |}.

(** [os.Process], as the operating system and the [os] package see the
    child: running; finished, that is exited or killed, and not yet
    waited for; or waited for, which is what [server.Run()] in the
    goroutine of [delveStartServer] does once the child is dead. *)
Inductive Process := Running | Finished | Waited.

(** [exec.Cmd]: [Process] is [nil] until the command was started. *)
Record Cmd := { Cmd_Process : option Process }.

Record Globals := {
  vim : Vim;
  delve : option DelveClient;   (* var delve *DelveClient *)
  server : option Cmd;          (* var server *exec.Cmd *)
  breaks : bufferInfo;
  logs : bufferInfo;
  log : list string             (* what log.Println wrote *)
}.

Definition set_vim (v : Vim) (g : Globals) : Globals :=
  {| vim := v; delve := delve g; server := server g; breaks := breaks g;
     logs := logs g; log := log g |}.
Definition set_delve (d : option DelveClient) (g : Globals) : Globals :=
  {| vim := vim g; delve := d; server := server g; breaks := breaks g;
     logs := logs g; log := log g |}.
Definition set_server (c : option Cmd) (g : Globals) : Globals :=
  {| vim := vim g; delve := delve g; server := c; breaks := breaks g;
     logs := logs g; log := log g |}.
Definition set_breaks (b : bufferInfo) (g : Globals) : Globals :=
  {| vim := vim g; delve := delve g; server := server g; breaks := b;
     logs := logs g; log := log g |}.
Definition log_Println (line : string) : M Globals unit :=
  modify (fun g =>
    {| vim := vim g; delve := delve g; server := server g; breaks := breaks g;
       logs := logs g; log := log g ++ [line] |}).

(** A call through [v]: it runs against the editor. *)
Definition liftV {A} (m : M Vim A) : M Globals A :=
  fun g => let '(r, v) := m (vim g) in (r, set_vim v g).

Definition nil_deref : string :=
  "invalid memory address or nil pointer dereference".

(** Code that reads and writes [delve.breakpoints].  [delve] being [nil]
    panics.  A [nil] map answers every read with [nil], and the loop
    writes only through the pointers it read, so it leaves a [nil] map
    as it is. *)
Definition with_breakpoints {A} (m : M (gmap Z Breakpoint) A) : M Globals A :=
  fun g =>
    match delve g with
    | None => (Panic nil_deref, g)
    | Some d =>
        match breakpoints d with
        | Some bps =>
            let '(r, bps) := m bps in
            (r, set_delve (Some (set_breakpoints (Some bps) d)) g)
        | None => ((m ∅).1, g)
        end
    end.

(** [if err := m; err != nil { return err }; k] *)
Definition check {S} (m : M S error) (k : M S error) : M S error :=
  err ← m;
  match err with
  | Some e => mret (Some e)
  | None => k
  end.

(** [defer d()] around [body]: [d] runs when [body] returns or panics; its
    result is dropped, a panic of [d] takes over. *)
Definition defer {S A B} (d : M S B) (body : M S A) : M S A :=
  fun s =>
    let '(r, s) := body s in
    match d s with
    | (Done _, s) => (r, s)
    | (Panic why, s) => (Panic why, s)
    end.

(** An answer of the debug server to one RPC. *)
Inductive rpc (A : Type) : Type :=
| Reply (a : A)
| Fail (e : string).
Arguments Reply {A} a.
Arguments Fail {A} e.

(** [delvePrintDebug(prefix, data)]: one log line. *)
Definition delvePrintDebug (prefix : string) : M Globals unit :=
  log_Println prefix.

Definition exited_message (pid status : Z) : string :=
  ("Process " +:+ Fmt.d pid +:+ " has exited with status " +:+ Fmt.d status)%string.

(** ** The operating system's side of [server.Process.Kill()] *)

(** [os.Process.Kill] sends the signal and returns [nil] as long as the
    child has not been waited for, also when the child is dead already;
    once [Wait] has returned it answers with an error. *)
Definition Process_Kill (p : Process) : error * Process :=
  match p with
  | Running => (nil, Finished)
  | Finished => (nil, Finished)
  | Waited => (Some "os: process already finished"%string, Waited)
  end.


(** [delveKill] of [commands/delve.go]. *)
Definition delveKill : M Globals error :=
  g ← get;
  match server g with
  | Some cmd =>
      match Cmd_Process cmd with
      | None => panic nil_deref
      | Some p =>
          let '(err, p) := Process_Kill p in
          modify (set_server (Some {| Cmd_Process := Some p |}));;
          match err with
          | Some e => mret (Some e)
          | None => log_Println "Killed delve server";; mret nil
          end
      end
  | None => mret nil
  end.


(** [delveRestart]. *)
Definition delveRestart (Restart : error) : M Globals error :=
  g ← get;
  match delve g with
  | None => panic nil_deref
  | Some _ =>
      match Restart with
      | Some e => mret (Some e)
      | None => mret nil
      end
  end.

(** [delveFunctionList] of [commands/delve.go]: the answer of
    [delve.client.ListFunctions("main")] is its argument. *)
Definition delveFunctionList (ListFunctions : rpc (list string))
  : M Globals (list string * error) :=
  g ← get;
  match delve g with
  | None => panic nil_deref
  | Some _ =>
      match ListFunctions with
      | Fail _ => mret ([], nil)
      | Reply funcs => mret (funcs, nil)
      end
  end.

(** [FunctionsCompletion] of [commands/delve/delve.go], the same
    completion in the later package. *)
Definition FunctionsCompletion (ListFunctions : rpc (list string))
  : list string * error :=
  match ListFunctions with
  | Fail e => ([], Some e)
  | Reply funcs => (funcs, nil)
  end.

(** ** The command wrappers: [go f(v)], and the goroutines they start *)

(** The functions the wrappers start as goroutines. *)
Inductive Goroutine :=
| G_delveStartServer
| G_delveCommand
| G_delveContinue
| G_delveNext
| G_delveRestart
| G_delveDetach
| G_delveKill.

Global Instance Goroutine_eq_dec : EqDecision Goroutine.
Proof. solve_decision. Defined.

(** The commands that change the session. *)
Definition mutating (f : Goroutine) : bool :=
  match f with
  | G_delveContinue | G_delveNext | G_delveRestart
  | G_delveDetach | G_delveKill => true
  | _ => false
  end.

(** Goroutines started by different commands share the registry
    [delve.breakpoints].  Of what a started function does, its accesses
    to the registry are modelled, one access a step; only
    [delveContinue] and [delveNext] have any, in the loop over their
    sorted listing.  The place of a goroutine in the body of that loop,
    for the entry [bp] at hand: *)
Inductive place :=
| AtTest          (* if delve.breakpoints[bp.ID].TotalHitCount != bp.TotalHitCount *)
| AtSetTotal      (* delve.breakpoints[bp.ID].TotalHitCount = bp.TotalHitCount *)
| AtSetHitCount   (* delve.breakpoints[bp.ID].HitCount = bp.HitCount *)
| AtKeep.         (* bp = delve.breakpoints[bp.ID] *)

(** A started goroutine. *)
Record goroutine := {
  func : Goroutine;         (* the function it runs *)
  todo : list Breakpoint;   (* the entries its loop has not finished *)
  at_place : place;
  returned : bool           (* the function has returned *)
}.

(** The next step of a goroutine against the registry: one access of the
    loop, or, the loop being over, the return of the function.  Every
    access goes through [delve.breakpoints[bp.ID]], which is [nil], and
    panics, for an identifier that is not registered. *)
Definition gstep (t : goroutine) : M (gmap Z Breakpoint) goroutine :=
  match todo t with
  | [] =>
      mret {| func := func t; todo := []; at_place := at_place t;
              returned := true |}
  | bp :: rest =>
      bps ← get;
      match bps !! ID bp with
      | None => panic nil_deref
      | Some cached =>
          match at_place t with
          | AtTest =>
              mret {| func := func t; todo := bp :: rest;
                      at_place :=
                        if decide (TotalHitCount cached ≠ TotalHitCount bp)
                        then AtSetTotal else AtKeep;
                      returned := false |}
          | AtSetTotal =>
              modify (alter (set_TotalHitCount (TotalHitCount bp)) (ID bp));;
              mret {| func := func t; todo := bp :: rest;
                      at_place := AtSetHitCount; returned := false |}
          | AtSetHitCount =>
              modify (alter (set_HitCount (HitCount bp)) (ID bp));;
              mret {| func := func t; todo := rest; at_place := AtTest;
                      returned := false |}
          | AtKeep =>
              mret {| func := func t; todo := rest; at_place := AtTest;
                      returned := false |}
          end
      end
  end.

(** The plugin at run time: the goroutines started so far, in the order
    of their start, and the registry they share. *)
Record Session := {
  goroutines : list goroutine;
  shared : gmap Z Breakpoint
}.

(** The listing the loop of a started function goes through:
    [sort.Sort(ByID(breakpoint))] of what the server answers it. *)
Definition listing_of (f : Goroutine) (ListBreakpoints : list Breakpoint)
  : list Breakpoint :=
  match f with
  | G_delveContinue | G_delveNext => sort_Sort ListBreakpoints
  | _ => []
  end.

Definition started (f : Goroutine) (ListBreakpoints : list Breakpoint)
  : goroutine :=
  {| func := f; todo := listing_of f ListBreakpoints; at_place := AtTest;
     returned := false |}.

(** [go f(v)]: one more goroutine.  The statement returns at once and has
    no result, so a wrapper has nothing to refuse with.
    [ListBreakpoints] is what the server is going to answer the
    goroutine. *)
Definition go (f : Goroutine) (ListBreakpoints : list Breakpoint)
  : M Session unit :=
  modify (fun s =>
    {| goroutines := goroutines s ++ [started f ListBreakpoints];
       shared := shared s |}).

Definition cmdDelveStartServer : M Session unit := go G_delveStartServer [].
Definition cmdDelveCommand : M Session unit := go G_delveCommand [].
Definition cmdDelveContinue (ListBreakpoints : list Breakpoint)
  : M Session unit := go G_delveContinue ListBreakpoints.
Definition cmdDelveNext (ListBreakpoints : list Breakpoint)
  : M Session unit := go G_delveNext ListBreakpoints.
Definition cmdDelveRestart : M Session unit := go G_delveRestart [].
Definition CmdDelveDetach : M Session unit := go G_delveDetach [].
Definition CmdDelveKill : M Session unit := go G_delveKill [].

Definition wrapper (f : Goroutine) (ListBreakpoints : list Breakpoint)
  : M Session unit :=
  match f with
  | G_delveStartServer => cmdDelveStartServer
  | G_delveCommand => cmdDelveCommand
  | G_delveContinue => cmdDelveContinue ListBreakpoints
  | G_delveNext => cmdDelveNext ListBreakpoints
  | G_delveRestart => cmdDelveRestart
  | G_delveDetach => CmdDelveDetach
  | G_delveKill => CmdDelveKill
  end.

(** The scheduler lets goroutine [i] take its next step.  A panic of one
    goroutine ends the plugin. *)
Definition sched (i : nat) : M Session unit :=
  s ← get;
  match goroutines s !! i with
  | None => mret tt
  | Some t =>
      match gstep t (shared s) with
      | (Done t', bps) =>
          modify (fun _ => {| goroutines := <[i := t']> (goroutines s);
                              shared := bps |})
      | (Panic why, bps) =>
          modify (fun _ => {| goroutines := goroutines s; shared := bps |});;
          panic why
      end
  end.

(** What happens to the plugin, in order: the user issues a command, or
    a goroutine takes a step. *)
Inductive event :=
| Command (f : Goroutine) (ListBreakpoints : list Breakpoint)
| Step (i : nat).

Fixpoint run (events : list event) : M Session unit :=
  match events with
  | [] => mret tt
  | Command f ListBreakpoints :: rest => wrapper f ListBreakpoints;; run rest
  | Step i :: rest => sched i;; run rest
  end.

(** The session-changing commands in flight: started and not returned. *)
Definition in_flight (s : Session) : nat :=
  length (filter (fun t => mutating (func t) && negb (returned t) = true)
            (goroutines s)).

(** Serialized execution: each command is issued, and its goroutine then
    runs by itself until its function has returned (three accesses an
    entry at most, and the return), before the next command is issued. *)
Fixpoint serially (cmds : list (Goroutine * list Breakpoint))
  : M Session unit :=
  match cmds with
  | [] => mret tt
  | (f, l) :: rest =>
      s ← get;
      run (Command f l
           :: replicate (3 * length (listing_of f l) + 1)
                (Step (length (goroutines s))));;
      serially rest
  end.

(** The registry after the reconciliation passes of the commands, one
    whole pass after the other. *)
Fixpoint passes (cmds : list (Goroutine * list Breakpoint))
    (bps : gmap Z Breakpoint) : gmap Z Breakpoint :=
  match cmds with
  | [] => bps
  | (f, l) :: rest => passes rest (reconcile (listing_of f l) bps).2
  end.

(** ** The controller: start, breakpoint, continue, next, detach *)

Definition set_breaks_linecount (n : Z) : M Globals unit :=
  modify (fun g => set_breaks (set_linecount n (breaks g)) g).

(** The request [delveBreakpoint] sends:
    [&delveapi.Breakpoint{FunctionName: args[0], Name: bpName, Tracepoint: true}] *)
Definition breakpoint_request (sym bpName : string) : Breakpoint :=
  {| ID := 0; Name := bpName; Addr := 0; File := EmptyString; Line := 0;
     FunctionName := sym; Tracepoint := true; HitCount := ∅;
     TotalHitCount := 0 |}.

Section Controller.

(** What the controller does to the presentation only is taken as it
    comes: these calls run against the whole state and may fail or
    panic in any way. *)

(** [parseThread(v, thread)]: the thread line in the log buffer, the
    source file, the signs and the cursor. *)
Variable parseThread : option Thread -> M Globals error.

(** [delveStartClient], from [channelId, _ = v.ChannelID()] to the
    second [p.SetCurrentWindow(src.window)]: the buffers, windows and
    signs of the debug tab, with its two [p.Wait()]. *)
Variable createBuffers : M Globals error.

(** [p.Wait()], the last statement of [delveStartClient]. *)
Variable p_Wait : M Globals error.

(** [delveBreakpoint]: [delve.bpSign[newbp.File]] and, when it is
    [nil], [nvim.NewSign]. *)
Variable newSign : string -> M Globals error.

(** [delveDetach]: the [if delve.buffers != nil] block. *)
Variable closeBuffers : M Globals error.

(** [delveStartClient].  [ProcessPid] and [GetBreakpoint] are the
    answers of the server to [ProcessPid()] and [GetBreakpoint(-1)]. *)
Definition delveStartClient (ProcessPid : Z) (GetBreakpoint : rpc Breakpoint)
  : M Globals error :=
  g ← get;
  match server g with
  | None => liftV (EchohlErr "Delve" "dlv headless server not running")
  | Some _ =>
      (* delve = NewDelveClient(addr); delve.procPid = ... *)
      modify (set_delve (Some {| procPid := ProcessPid; breakpoints := None |}));;
      check createBuffers (
        (* delve.breakpoints = make(map[int]*delveapi.Breakpoint) *)
        g ← get;
        match delve g with
        | None => panic nil_deref
        | Some d =>
            modify (set_delve (Some (set_breakpoints (Some ∅) d)));;
            match GetBreakpoint with
            | Fail e => liftV (EchohlErr "Delve" e)
            | Reply panic_bp =>
                (* delve.breakpoints[-1] = panic *)
                modify (set_delve
                  (Some (set_breakpoints (Some {[ (-1) := panic_bp ]}) d)));;
                g ← get;
                '(n, err) ← liftV (printBuffer (buffer (breaks g)) true
                              (Strings.Split (sbp panic_bp) newline));
                set_breaks_linecount n;;
                match err with
                | Some e => mret (Some e)
                | None =>
                    g ← get;
                    check (liftV (SetWindowCursor (window (breaks g))
                                    (linecount (breaks g), 0)))
                          p_Wait
                end
            end
        end)
  end.

(** [delveBreakpoint].  [CreateBreakpoint] is the server's answer to
    the request it is given. *)
Definition delveBreakpoint (args : list string)
    (CreateBreakpoint : Breakpoint -> rpc Breakpoint) : M Globals error :=
  let create (sym bpName : string) : M Globals error :=
    g ← get;
    match delve g with
    | None => panic nil_deref
    | Some d =>
        match CreateBreakpoint (breakpoint_request sym bpName) with
        | Fail e => liftV (EchohlErr "Delve" e)
        | Reply newbp =>
            (* delve.breakpoints[newbp.ID] = newbp *)
            match breakpoints d with
            | None => panic "assignment to entry in nil map"
            | Some bps =>
                modify (set_delve
                  (Some (set_breakpoints (Some (<[ID newbp := newbp]> bps)) d)));;
                err ← newSign (File newbp);
                match err with
                | Some e => liftV (EchohlErr "Delve" e)
                | None =>
                    delvePrintDebug "bp";;
                    delvePrintDebug "delve.breakponits";;
                    g ← get;
                    '(n, err) ← liftV (printBuffer (buffer (breaks g)) true
                                  (Strings.Split (sbp newbp) newline));
                    set_breaks_linecount n;;
                    match err with
                    | Some e => liftV (EchohlErr "Delve" e)
                    | None =>
                        g ← get;
                        err ← liftV (SetWindowCursor (window (breaks g))
                                       (linecount (breaks g), 0));
                        match err with
                        | Some e => liftV (EchohlErr "Delve" e)
                        | None => mret nil
                        end
                    end
                end
            end
        end
    end in
  match args with
  | [] => liftV (EchohlErr "Delve" "Invalid argument")
  | [sym] =>
      match deriveName sym with
      | Panic why => panic why
      | Done bpName => create sym bpName
      end
  | [sym; bpName] => create sym bpName
  | _ => liftV (EchohlErr "Delve" "Too many arguments")
  end.

(** The block [delveContinue] and [delveNext] share word for word:
    list the breakpoints, sort them, reconcile and render them into the
    breakpoint buffer. *)
Definition refreshBreakpoints (ListBreakpoints : rpc (list Breakpoint))
  : M Globals error :=
  match ListBreakpoints with
  | Fail e => mret (Some e)
  | Reply breakpoint =>
      let breakpoint := sort_Sort breakpoint in
      delvePrintDebug "breakpoint";;
      rendered ← with_breakpoints (reconcile breakpoint);
      g ← get;
      '(n, err) ← liftV (printBuffer (buffer (breaks g)) false
                    (Strings.Split (bplines rendered) newline));
      set_breaks_linecount n;;
      match err with
      | Some e => mret (Some e)
      | None =>
          g ← get;
          check (liftV (SetWindowCursor (window (breaks g))
                          (linecount (breaks g), 0)))
                (mret nil)
      end
  end.

(** [delveContinue].  [state] is what arrives on the channel of
    [delve.client.Continue()]. *)
Definition delveContinue (state : option DebuggerState)
    (ListBreakpoints : rpc (list Breakpoint)) : M Globals error :=
  g ← get;
  match delve g with
  | None => panic nil_deref
  | Some d =>
      delvePrintDebug "state";;
      match state with
      | None => panic nil_deref   (* state.ExitStatus *)
      | Some st =>
          if Exited st
          then liftV (Echomsg (exited_message (procPid d) (ExitStatus st)))
          else check (parseThread (CurrentThread st))
                     (refreshBreakpoints ListBreakpoints)
      end
  end.

(** [delveNext].  [Next] is the answer of [delve.client.Next()]. *)
Definition delveNext (Next : rpc (option DebuggerState))
    (ListBreakpoints : rpc (list Breakpoint)) : M Globals error :=
  g ← get;
  match delve g with
  | None => panic nil_deref
  | Some d =>
      match Next with
      | Fail e => mret (Some e)
      | Reply None => panic nil_deref   (* state.ExitStatus *)
      | Reply (Some st) =>
          if Exited st
          then liftV (Echomsg (exited_message (procPid d) (ExitStatus st)))
          else check (refreshBreakpoints ListBreakpoints)
                     (check (parseThread (CurrentThread st)) (mret nil))
      end
  end.

(** [delveDetach].  [Detach] is the answer of
    [delve.client.Detach(true)]. *)
Definition delveDetach (Detach : error) : M Globals error :=
  defer delveKill (
    g ← get;
    match delve g with
    | None => panic nil_deref
    | Some d =>
        if procPid d =? 0 then mret nil
        else
          check closeBuffers (
            match Detach with
            | Some e => mret (Some e)
            | None => log_Println "Detached delve client";; mret nil
            end)
    end).

End Controller.

(** ** Reconciliation, entry by entry *)

(** What one payload entry [bp] makes of the cached descriptor of its
    identifier: the hit-count fields are the server's when the cumulative
    counts differ, and the cached descriptor stays as it is otherwise. *)
Definition reconciled (bp cached : Breakpoint) : Breakpoint :=
  if decide (TotalHitCount cached ≠ TotalHitCount bp)
  then set_HitCount (HitCount bp)
         (set_TotalHitCount (TotalHitCount bp) cached)
  else cached.

(** What a whole payload makes of the cached descriptor of identifier
    [i]: its entries for [i], in payload order. *)
Fixpoint reconciled_by (i : Z) (payload : list Breakpoint)
    (cached : Breakpoint) : Breakpoint :=
  match payload with
  | [] => cached
  | bp :: rest =>
      reconciled_by i rest
        (if decide (ID bp = i) then reconciled bp cached else cached)
  end.

(** Every payload entry names a registered breakpoint. *)
Definition registered (bps : gmap Z Breakpoint) (payload : list Breakpoint)
  : Prop :=
  Forall (fun bp => is_Some (bps !! ID bp)) payload.

(** Every descriptor is registered under its own identifier, as
    [delve.breakpoints[newbp.ID] = newbp] does it. *)
Definition keyed_by_ID (bps : gmap Z Breakpoint) : Prop :=
  forall k c, bps !! k = Some c -> ID c = k.

(** Two descriptors that differ in their hit counts at most. *)
Definition same_breakpoint (x y : Breakpoint) : Prop :=
  ID x = ID y /\ Name x = Name y /\ Addr x = Addr y /\ File x = File y
  /\ Line x = Line y /\ FunctionName x = FunctionName y
  /\ Tracepoint x = Tracepoint y.

(** ** Example states *)

Definition bp_with (id total : Z) (fn : string) : Breakpoint :=
  {| ID := id; Name := EmptyString; Addr := 4096; File := "main.go"; Line := 10;
     FunctionName := fn; Tracepoint := false; HitCount := ∅;
     TotalHitCount := total |}.

Definition vim0 : Vim :=
  {| buffers := {[ 1 := {| lines := [EmptyString]; modifiable := false |} ]};
     windows := {[ 1 := {| wbuffer := 1; cursor := (1, 0) |} ]};
     messages := [] |}.

Definition info0 : bufferInfo :=
  {| buffer := 1; window := 1; linecount := 0; name := "breakpoint" |}.

(** A session right after [delveStartClient]: a started server, and the
    registry holding the unrecovered-panic breakpoint only. *)
Definition globals0 : Globals :=
  {| vim := vim0;
     delve := Some {| procPid := 4242;
                      breakpoints := Some {[ (-1) := bp_with (-1) 0 "runtime.startpanic" ]} |};
     server := Some {| Cmd_Process := Some Running |};
     breaks := info0; logs := info0; log := [] |}.

(** The same session with the breakpoint 1 registered, hit 5 times. *)
Definition globals1 : Globals :=
  set_delve (Some {| procPid := 4242;
                     breakpoints := Some {[ 1 := bp_with 1 5 "main.main" ]} |})
    globals0.


Definition no_presentation : M Globals error := mret nil.

(** The server reports a stop without a current thread, and an exit. *)
Definition stopped_state : DebuggerState :=
  {| CurrentThread := None; Exited := false; ExitStatus := 0 |}.

Definition exited_state : DebuggerState :=
  {| CurrentThread := None; Exited := true; ExitStatus := 2 |}.

(** The registry, a [nil] map or a missing client reading as empty. *)
Definition registry (g : Globals) : gmap Z Breakpoint :=
  match delve g with
  | Some d => default ∅ (breakpoints d)
  | None => ∅
  end.

(** ** [nvim/buffer.go] *)

(** [v.WindowCursor(w)]: the position of the cursor of a window; an
    invalid handle answers with the zero value and an error. *)
Definition WindowCursor (w : Z) : M Vim ((Z * Z) * error) :=
  v ← get;
  match windows v !! w with
  | Some wn => mret (cursor wn, nil)
  | None => mret ((0, 0), Some "Invalid window id"%string)
  end.

(** [errors.Annotate(err, context)], as its [Error()] reads. *)
Definition Annotate (e context : string) : string :=
  (context +:+ ": " +:+ e)%string.

Definition pkgBuffer : string := "nvim.buffer".

(** [func ToByteSlice(byt [][]byte) []byte { return bytes.Join(byt, []byte{'\n'}) }] *)
Definition ToByteSlice (byt : list string) : string :=
  Strings.Join byt (String newline EmptyString).

(** [func ToBufferLines(byt []byte) [][]byte { return bytes.Split(byt, []byte{'\n'}) }] *)
Definition ToBufferLines (byt : string) : list string :=
  Strings.Split byt newline.

(** [(b *Buffer) lineCount()].  [CurrentLine] is the answer of
    [b.v.CurrentLine()]: the line under the cursor of the editor's current
    window, whichever buffer that window shows. *)
Definition Buffer_lineCount (b : Z) (CurrentLine : string * error)
  : M Vim (Z * error) :=
  '(lineCount, err) ← BufferLineCount b;
  match err with
  | Some e => mret (0, Some (Annotate e pkgBuffer))
  | None =>
      if lineCount =? 1 then
        let '(line, err) := CurrentLine in
        match err with
        | Some e => mret (0, Some (Annotate e pkgBuffer))
        | None =>
            (* Set 0 to lineCount if buffer is empty *)
            if (String.length line =? 0)%nat then mret (0, nil)
            else mret (lineCount, nil)
        end
      else mret (lineCount, nil)
  end.

(** [(b *Buffer) Write(p)]; [WriteString] has the same body. *)
Definition Buffer_Write (b : Z) (CurrentLine : string * error) (p : string)
  : M Vim error :=
  '(lineCount, err) ← Buffer_lineCount b CurrentLine;
  match err with
  | Some e => mret (Some (Annotate e pkgBuffer))
  | None => SetBufferLines b lineCount (-1) true (ToBufferLines p)
  end.

Definition Buffer_WriteString (b : Z) (CurrentLine : string * error)
    (s : string) : M Vim error :=
  '(lineCount, err) ← Buffer_lineCount b CurrentLine;
  match err with
  | Some e => mret (Some (Annotate e pkgBuffer))
  | None => SetBufferLines b lineCount (-1) true (ToBufferLines s)
  end.

(** [(b *Buffer) Truncate(n)]: the error of the call is dropped. *)
Definition Buffer_Truncate (b : Z) (n : Z) : M Vim unit :=
  SetBufferLines b n (-1) true [];; mret tt.

(** [(b *Buffer) Reset()] *)
Definition Buffer_Reset (b : Z) : M Vim unit := Buffer_Truncate b 0.

(** The loop of [ByteOffset]:
<<
    for _, buf := range byteBuf {
        if line == cursor[0] { offset++; break }
        offset += (binary.Size(buf) + 1)
        line++
    }
>>
    [binary.Size] of a byte slice is its length. *)
Fixpoint ByteOffset_loop (byteBuf : list string) (cursor0 line offset : Z) : Z :=
  match byteBuf with
  | [] => offset
  | buf :: rest =>
      if line =? cursor0 then offset + 1
      else ByteOffset_loop rest cursor0 (line + 1)
             (offset + (Z.of_nat (String.length buf) + 1))
  end.

(** [ByteOffset(v, b, w)]: the errors of the two calls are dropped. *)
Definition ByteOffset (b w : Z) : M Vim (Z * error) :=
  '(cursor, _) ← WindowCursor w;
  '(byteBuf, _) ← BufferLines b 0 (-1) true;
  if cursor.1 =? 1 then mret (1 + (cursor.2 - 1), nil)
  else mret (ByteOffset_loop byteBuf cursor.1 1 0 + (cursor.2 - 1), nil).

(** The text of a buffer and the number of its bytes. *)
Definition bytes_of (s : string) : Z := Z.of_nat (String.length s).

(** ** More example states *)

(** A modifiable buffer 3 of two lines, shown in window 2 with the cursor
    on the fourth byte of the second line. *)
Definition vim_two_lines : Vim :=
  {| buffers := {[ 3 := {| lines := ["package main"; "func main() {}"]%string;
                           modifiable := true |} ]};
     windows := {[ 2 := {| wbuffer := 3; cursor := (2, 3) |} ]};
     messages := [] |}.

Definition buf_two_lines : Buf :=
  {| lines := ["package main"; "func main() {}"]%string; modifiable := true |}.

(** The session of [globals0] whose client has no registry yet. *)
Definition globals_no_registry : Globals :=
  set_delve (Some {| procPid := 4242; breakpoints := None |}) globals0.

(** The buffers could not be created. *)
Definition failing_presentation : M Globals error :=
  mret (Some "Invalid window id"%string).

(** Whether the byte [c] occurs in [s]. *)
Fixpoint has_byte (c : ascii) (s : string) : bool :=
  match s with
  | EmptyString => false
  | String x r => Ascii.eqb x c || has_byte c r
  end.

(** A session whose registry holds breakpoint 1, hit 5 times, and the
    listings the server answers two continues with: 6 hits, 7 hits, all
    of them in goroutine 1 of the debuggee. *)
Definition answer (n : Z) : Breakpoint :=
  set_HitCount {[ "1"%string := n ]} (bp_with 1 n "main.main").

Definition session0 : Session :=
  {| goroutines := []; shared := {[ 1 := bp_with 1 5 "main.main" ]} |}.

(** Two continues, the second issued while the first is outstanding, and
    their goroutines taking turns. *)
Definition two_continues : list event :=
  [Command G_delveContinue [answer 6]; Command G_delveContinue [answer 7]].

Definition taking_turns : list event :=
  [Step 0; Step 1; Step 0; Step 1; Step 1; Step 0; Step 0; Step 1]%nat.

(** * Properties *)

(** ** Breakpoint names *)

Lemma string_app_nil (b : string) : EmptyString +:+ b = b.
Proof. reflexivity. Qed.

Lemma string_app_cons c (a b : string) : String c a +:+ b = String c (a +:+ b).
Proof. reflexivity. Qed.

Lemma string_app_nil_r (a : string) : a +:+ EmptyString = a.
Proof. induction a; rewrite ?string_app_nil, ?string_app_cons; congruence. Qed.

Ltac sapp := rewrite ?string_app_nil, ?string_app_cons, ?string_app_nil_r.

Lemma Split_nonempty s sep : Strings.Split s sep <> [].
Proof.
  destruct s as [|c r]; simpl; [done|].
  destruct (Ascii.eqb c sep); [done|].
  destruct (Strings.Split r sep); done.
Qed.

Lemma Split_cons_other c r sep :
  Ascii.eqb c sep = false ->
  exists h t, Strings.Split r sep = h :: t /\
              Strings.Split (String c r) sep = String c h :: t.
Proof.
  intros Hc. simpl. rewrite Hc.
  destruct (Strings.Split r sep) as [|h t] eqn:E.
  - by apply Split_nonempty in E.
  - eauto.
Qed.

Lemma Split_prefix pkg r :
  has_dot pkg = false ->
  Strings.Split (pkg +:+ String "." r) "." = pkg :: Strings.Split r ".".
Proof.
  induction pkg as [|c pkg IH]; sapp; [done|].
  simpl. intros [Hc Hp]%orb_false_iff. rewrite Hc, (IH Hp). done.
Qed.

Lemma Join_cons_empty x l :
  Strings.Join (x :: l) EmptyString = x +:+ Strings.Join l EmptyString.
Proof.
  destruct l as [|y l]; simpl; by sapp.
Qed.

Lemma Join_Split_dots s :
  Strings.Join (Strings.Split s ".") EmptyString = remove_dots s.
Proof.
  induction s as [|c r IH]; [done|].
  cbn [Strings.Split remove_dots].
  destruct (Ascii.eqb c ".") eqn:Hc.
  - by rewrite Join_cons_empty, IH.
  - destruct (Strings.Split r ".") as [|h t] eqn:E.
    + by apply Split_nonempty in E.
    + rewrite Join_cons_empty in *. sapp. by rewrite IH.
Qed.

Lemma remove_dots_no_dot s : has_dot s = false -> remove_dots s = s.
Proof.
  induction s as [|c r IH]; simpl; [done|].
  intros [Hc Hr]%orb_false_iff. rewrite Hc, (IH Hr). done.
Qed.

Lemma spec_name_from_no_dot b c r :
  has_dot (String c r) = false ->
  spec_name_from b (String c r)
  = String (if b then Strings.upper_byte c else c) r.
Proof.
  simpl. intros [Hc Hr]%orb_false_iff. rewrite Hc. f_equal.
  clear Hc. induction r as [|c' r IH]; simpl in *; [done|].
  apply orb_false_iff in Hr as [Hc' Hr]. rewrite Hc'. f_equal. auto.
Qed.

Lemma spec_name_from_prefix pkg r :
  has_dot pkg = false ->
  spec_name_from false (pkg +:+ String "." r) = pkg +:+ spec_name_from true r.
Proof.
  induction pkg as [|c pkg IH]; sapp; [done|].
  simpl. intros [Hc Hp]%orb_false_iff. rewrite Hc. f_equal. auto.
Qed.

(** The name of a symbol [pkg.cTAIL]: the first byte after the first dot
    is upper-cased, every dot is dropped, nothing else changes. *)
Lemma deriveName_first_segment pkg c tail :
  has_dot pkg = false ->
  Ascii.eqb c "." = false ->
  Strings.is_ascii c = true ->
  deriveName (pkg +:+ String "." (String c tail))
  = Done (pkg +:+ String (Strings.upper_byte c) (remove_dots tail)).
Proof.
  intros Hp Hc Ha. unfold deriveName.
  rewrite (Split_prefix _ _ Hp).
  destruct (Split_cons_other c tail "." Hc) as (h & t & Ht & ->).
  cbn -[Strings.Join String.append].
  unfold Strings.ToUpper1. rewrite Ha.
  f_equal. rewrite !Join_cons_empty. f_equal.
  sapp. f_equal.
  by rewrite <- Join_Split_dots, Ht, Join_cons_empty.
Qed.

(** C5 (as amended): for a symbol [pkg.cTAIL] whose package part has no
    dot and whose function part starts with an ASCII byte other than a
    dot, the derivation returns, without panicking, the symbol with its
    dots removed and the first byte after the FIRST dot upper-cased; when
    the symbol has that one dot only, this is the rule of the
    specification. *)
Theorem deriveName_first_dot (pkg tail : string) (c : ascii) :
  has_dot pkg = false ->
  Ascii.eqb c "." = false ->
  Strings.is_ascii c = true ->
  deriveName (pkg +:+ String "." (String c tail))
  = Done (pkg +:+ String (Strings.upper_byte c) (remove_dots tail))
  /\ (has_dot tail = false ->
      deriveName (pkg +:+ String "." (String c tail))
      = Done (spec_name (pkg +:+ String "." (String c tail)))).
Proof.
  intros Hp Hc Ha. split; [by apply deriveName_first_segment|].
  intros Ht. rewrite deriveName_first_segment by done.
  unfold spec_name. rewrite spec_name_from_prefix by done.
  rewrite spec_name_from_no_dot by (simpl; rewrite Hc, Ht; done).
  by rewrite remove_dots_no_dot.
Qed.

Lemma deriveName_first_dot_witness :
  deriveName "main.main" = Done "mainMain"%string
  /\ deriveName "main.main" = Done (spec_name "main.main").
Proof.
  destruct (deriveName_first_dot "main" "ain" "m" eq_refl eq_refl eq_refl)
    as [H1 H2].
  split; [exact H1 | exact (H2 eq_refl)].
Defined.

(** C5 as stated fails on a symbol with a second dot: the letter after it
    stays in lower case. *)
Lemma deriveName_second_dot_not_upper :
  deriveName "main.T.foo" = Done "mainTfoo"%string
  /\ spec_name "main.T.foo" = "mainTFoo"%string
  /\ deriveName "main.T.foo" <> Done (spec_name "main.T.foo").
Proof. repeat split; [vm_compute; reflexivity ..|vm_compute; discriminate]. Qed.

(** ** The buffer writer *)

Ltac run_M :=
  cbv [mbind M_bind bind mret M_ret ret get modify panic liftV check nil] in *.

Lemma start_of_bounds append ls : 0 <= start_of append ls <= len ls.
Proof.
  unfold start_of, len. destruct append; [|lia].
  case_decide; lia.
Qed.

(** What [SetBufferLines(b, start, -1, true, data)] does to a modifiable
    buffer when [start] is within it. *)
Lemma SetBufferLines_tail v b bf start data :
  buffers v !! b = Some bf ->
  modifiable bf = true ->
  0 <= start <= len (lines bf) ->
  SetBufferLines b start (-1) true data v
  = (Done nil,
     set_buffers
       <[b := {| lines := at_least_one_line
                            (take (Z.to_nat start) (lines bf) ++ data);
                 modifiable := true |}]> v).
Proof.
  intros Hb Hm Hs. unfold SetBufferLines. run_M. rewrite Hb.
  unfold index. change (-1 <? 0) with true. cbv iota.
  replace (len (lines bf) + 1 + -1) with (len (lines bf)) by lia.
  assert (0 <= len (lines bf)) by (unfold len; lia).
  destruct (Z.ltb_spec start 0); [lia|].
  destruct (Z.ltb_spec (len (lines bf)) start); [lia|].
  destruct (Z.ltb_spec (len (lines bf)) 0); [lia|].
  rewrite Z.ltb_irrefl, Hm. cbn [orb andb negb].
  rewrite (Z.min_r _ start), (Z.max_r 0 start), Z.min_id by lia.
  rewrite Z.max_r by lia.
  repeat match goal with
         | |- context [?a <? ?b] => rewrite (proj2 (Z.ltb_ge a b)) by lia
         end.
  cbn [orb]. unfold len at 1. rewrite Nat2Z.id, drop_all, app_nil_r. done.
Qed.

Lemma SetBufferOption_modifiable_valid v b bf value :
  buffers v !! b = Some bf ->
  SetBufferOption_modifiable b value v
  = (Done nil,
     set_buffers <[b := {| lines := lines bf; modifiable := value |}]> v).
Proof. intros Hb. unfold SetBufferOption_modifiable. run_M. by rewrite Hb. Qed.

(** C10 (as amended): for a buffer the editor knows,
    [printBuffer(v, b, append, data)] writes from line 0 when [append]
    is false; when [append] is true it writes from the buffer's line
    count, a buffer of one empty line counting as zero lines; it returns
    that start plus the number of lines of [data], and no error.  The
    lines before the start are kept, [data] follows them, and the buffer
    is left not modifiable. *)
Theorem printBuffer_start_and_count (v : Vim) (b : Z) (append : bool)
    (data : list string) (bf : Buf) :
  buffers v !! b = Some bf ->
  let start := start_of append (lines bf) in
  (printBuffer b append data v).1 = Done (start + len data, nil)
  /\ buffers (printBuffer b append data v).2 !! b
     = Some {| lines := at_least_one_line
                          (take (Z.to_nat start) (lines bf) ++ data);
               modifiable := false |}.
Proof.
  intros Hb start.
  assert (Hstart := start_of_bounds append (lines bf)). fold start in Hstart.
  (* the three editor calls that follow the choice of [start] *)
  assert (Hwrite :
    (SetBufferOption_modifiable b true;;
     err ← SetBufferLines b start (-1) true data;
     SetBufferOption_modifiable b false;;
     mret (M := M Vim) (start + len data, err)) v
    = (Done (start + len data, nil),
       set_buffers <[b := {| lines := at_least_one_line
                               (take (Z.to_nat start) (lines bf) ++ data);
                             modifiable := false |}]>
         (set_buffers <[b := {| lines := at_least_one_line
                               (take (Z.to_nat start) (lines bf) ++ data);
                             modifiable := true |}]>
           (set_buffers <[b := {| lines := lines bf; modifiable := true |}]> v)))).
  { run_M.
    rewrite (SetBufferOption_modifiable_valid _ _ _ _ Hb).
    erewrite SetBufferLines_tail;
      [|cbn; apply lookup_insert_eq|done|done].
    erewrite SetBufferOption_modifiable_valid;
      [|cbn; apply lookup_insert_eq]. done. }
  assert (Hgoal : printBuffer b append data v
    = (Done (start + len data, nil),
       set_buffers <[b := {| lines := at_least_one_line
                               (take (Z.to_nat start) (lines bf) ++ data);
                             modifiable := false |}]>
         (set_buffers <[b := {| lines := at_least_one_line
                               (take (Z.to_nat start) (lines bf) ++ data);
                             modifiable := true |}]>
           (set_buffers <[b := {| lines := lines bf; modifiable := true |}]> v)))).
  { rewrite <- Hwrite. clear Hwrite Hstart.
    unfold printBuffer, start, start_of. destruct append.
    - unfold BufferLineCount, BufferLines. run_M. rewrite Hb.
      destruct (lines bf) as [|l0 [|l1 ls]] eqn:Hl.
      + change (len [] =? 1) with false. cbv beta iota.
        case_decide; [done|]. done.
      + change (len [l0] =? 1) with true. cbv beta iota.
        rewrite Hb, Hl. change (len [l0]) with 1.
        cbn [index Z.ltb Z.compare andb orb Z.add Z.max Z.min Z.sub Z.opp
             Z.pos_sub Z.to_nat Pos.to_nat Pos.iter_op Nat.add drop take
             Z.succ_double Z.pred_double Z.double Pos.pred_double].
        destruct l0 as [|c l0]; cbn [String.length Nat.eqb].
        * case_decide; [done|congruence].
        * case_decide; [congruence|done].
      + replace (len (l0 :: l1 :: ls) =? 1) with false
          by (symmetry; apply Z.eqb_neq; unfold len; cbn [length]; lia).
        cbv beta iota. case_decide; [congruence|done].
    - run_M. cbn. done. }
  rewrite Hgoal. split; [done|]. cbn. apply lookup_insert_eq.
Qed.

Definition vim_one_empty_line : Vim :=
  {| buffers := {[ 7 := {| lines := [EmptyString]; modifiable := false |} ]};
     windows := ∅; messages := [] |}.

Lemma printBuffer_start_and_count_witness :
  (printBuffer 7 true ["a"; "b"]%string vim_one_empty_line).1 = Done (2, nil)
  /\ buffers (printBuffer 7 true ["a"; "b"]%string vim_one_empty_line).2 !! 7
     = Some {| lines := ["a"; "b"]%string; modifiable := false |}.
Proof.
  exact (printBuffer_start_and_count vim_one_empty_line 7 true
           ["a"; "b"]%string {| lines := [EmptyString]; modifiable := false |}
           eq_refl).
Defined.

(** C10 as stated fails on a buffer handle the editor does not know: an
    append is refused when the lines are counted, nothing is written,
    and the count returned with the error is 0, which is no start plus
    the two lines of the data. *)
Lemma printBuffer_unknown_buffer_returns_zero :
  buffers vim0 !! 9 = None
  /\ printBuffer 9 true ["a"; "b"]%string vim0
     = (Done (0, Some "Invalid buffer id"%string), vim0)
  /\ forall start, 0 <= start ->
       (printBuffer 9 true ["a"; "b"]%string vim0).1
       <> Done (start + len ["a"; "b"]%string, nil).
Proof.
  split; [reflexivity|]. split; [reflexivity|].
  intros start Hs H. vm_compute in H. discriminate.
Qed.

(** ** The reconciliation loop *)

Lemma reconcile1_registered bps bp cached :
  bps !! ID bp = Some cached ->
  reconcile1 bp bps
  = (Done (if decide (TotalHitCount cached ≠ TotalHitCount bp)
           then bp else cached),
     <[ID bp := reconciled bp cached]> bps).
Proof.
  intros Hc. unfold reconcile1, reconciled. run_M. rewrite Hc.
  case_decide.
  - f_equal. apply map_eq. intros i.
    rewrite !lookup_alter, lookup_insert.
    repeat case_decide; try congruence. by rewrite Hc.
  - by rewrite insert_id.
Qed.

Lemma reconcile1_unregistered bps bp :
  bps !! ID bp = None ->
  reconcile1 bp bps = (Panic nil_deref, bps).
Proof. intros Hc. unfold reconcile1. run_M. by rewrite Hc. Qed.

Lemma reconciled_same bp c : same_breakpoint (reconciled bp c) c.
Proof. unfold reconciled, same_breakpoint. case_decide; done. Qed.

Lemma reconciled_total bp c :
  TotalHitCount (reconciled bp c) = TotalHitCount bp.
Proof.
  unfold reconciled. case_decide as H; done.
Qed.

Lemma reconciled_by_same i p c : same_breakpoint (reconciled_by i p c) c.
Proof.
  revert c. induction p as [|bp p IH]; intros c; simpl.
  - unfold same_breakpoint. done.
  - specialize (IH (if decide (ID bp = i) then reconciled bp c else c)).
    case_decide; [|done].
    pose proof (reconciled_same bp c).
    unfold same_breakpoint in *. intuition congruence.
Qed.

(** The registry after a payload of registered identifiers: every
    descriptor is what its entries make of it, and no panic occurs. *)
Lemma reconcile_registered payload : forall bps,
  registered bps payload ->
  exists rendered,
    reconcile payload bps
    = (Done rendered, (reconcile payload bps).2)
    /\ forall i,
        (reconcile payload bps).2 !! i = reconciled_by i payload <$> bps !! i.
Proof.
  induction payload as [|bp rest IH]; intros bps Hreg.
  - exists []. split; [done|]. intros i. simpl. by destruct (bps !! i).
  - inversion Hreg as [|? ? [cached Hc] Hrest]; subst.
    assert (Hreg' : registered (<[ID bp := reconciled bp cached]> bps) rest).
    { eapply Forall_impl; [exact Hrest|]. intros x [cx Hx]. cbn beta.
      rewrite lookup_insert. case_decide; eauto. }
    destruct (IH _ Hreg') as (rs & Hrun & Hlook).
    cbn [reconcile]. run_M.
    rewrite (reconcile1_registered _ _ _ Hc).
    destruct (reconcile rest (<[ID bp := reconciled bp cached]> bps))
      as [r bps'] eqn:E.
    cbn [snd] in *. injection Hrun as ->.
    eexists. split; [done|].
    intros i. cbn [snd reconciled_by]. rewrite Hlook, lookup_insert.
    case_decide as Hi; [|done].
    subst i. by rewrite Hc.
Qed.

Lemma same_breakpoint_set x y n h :
  same_breakpoint x y ->
  set_HitCount h (set_TotalHitCount n x)
  = set_HitCount h (set_TotalHitCount n y).
Proof.
  destruct x, y. unfold same_breakpoint, set_HitCount, set_TotalHitCount.
  cbn. intros (-> & -> & -> & -> & -> & -> & ->). done.
Qed.

(** Two cached descriptors with the same cumulative count end up equal as
    soon as the payload changes that count at all. *)
Lemma reconciled_by_merge i q : forall x y,
  same_breakpoint x y ->
  TotalHitCount x = TotalHitCount y ->
  TotalHitCount (reconciled_by i q x) ≠ TotalHitCount x ->
  reconciled_by i q x = reconciled_by i q y.
Proof.
  induction q as [|bp q IH]; intros x y Hs Ht Hne; simpl in *; [done|].
  case_decide as Hi; [|by apply IH].
  unfold reconciled in *. rewrite <- Ht.
  case_decide as Hd.
  - by rewrite (same_breakpoint_set x y _ _ Hs).
  - by apply IH.
Qed.

Lemma reconciled_by_idempotent i p : forall c,
  reconciled_by i p (reconciled_by i p c) = reconciled_by i p c.
Proof.
  induction p as [|bp q IH]; intros c; [done|].
  cbn [reconciled_by]. case_decide as Hi; [|apply IH].
  set (c1 := reconciled bp c). set (d := reconciled_by i q c1).
  destruct (decide (TotalHitCount d = TotalHitCount bp)) as [Hd|Hd].
  - unfold reconciled at 1. rewrite decide_False by (intros ?; done).
    apply IH.
  - unfold reconciled at 1. rewrite decide_True by done.
    symmetry. apply reconciled_by_merge.
    + pose proof (reconciled_by_same i q c1) as Hs. fold d in Hs.
      unfold same_breakpoint in *; cbn; intuition congruence.
    + unfold c1. by rewrite reconciled_total.
    + fold d. unfold c1. by rewrite reconciled_total.
Qed.

Lemma reconciled_by_other i p c :
  i ∉ ID <$> p -> reconciled_by i p c = c.
Proof.
  revert c. induction p as [|bp p IH]; intros c Hi; [done|].
  cbn [reconciled_by]. rewrite fmap_cons in Hi.
  apply not_elem_of_cons in Hi as [Hne Hi].
  rewrite decide_False by done. by apply IH.
Qed.

Lemma reconciled_by_single p : forall bp c,
  NoDup (ID <$> p) -> bp ∈ p ->
  reconciled_by (ID bp) p c = reconciled bp c.
Proof.
  induction p as [|x p IH]; intros bp c Hnd Hin; [by apply elem_of_nil in Hin|].
  rewrite fmap_cons in Hnd. apply NoDup_cons in Hnd as [Hx Hnd].
  cbn [reconciled_by]. apply elem_of_cons in Hin as [->|Hin].
  - rewrite decide_True by done. by apply reconciled_by_other.
  - rewrite decide_False.
    + by apply IH.
    + intros Heq. apply Hx. rewrite Heq. by apply (list_elem_of_fmap_2 ID).
Qed.

(** C1 (as amended): in a pass over a payload of distinct, registered
    identifiers no panic occurs; the cached descriptor of each payload
    entry gets the server's two hit-count fields exactly when the
    cumulative counts differ and is left as it is otherwise; descriptors
    the payload does not name are untouched.  The cached cumulative count
    then equals the server's, so it does not decrease whenever the
    server's count is not below the cached one. *)
Theorem reconcile_overwrites_iff_differs
    (bps : gmap Z Breakpoint) (payload : list Breakpoint) :
  NoDup (ID <$> payload) ->
  registered bps payload ->
  let bps' := (reconcile payload bps).2 in
  (exists rendered, (reconcile payload bps).1 = Done rendered)
  /\ (forall bp cached,
        bp ∈ payload -> bps !! ID bp = Some cached ->
        bps' !! ID bp
        = Some (if decide (TotalHitCount cached ≠ TotalHitCount bp)
                then set_HitCount (HitCount bp)
                       (set_TotalHitCount (TotalHitCount bp) cached)
                else cached)
        /\ (TotalHitCount <$> bps' !! ID bp) = Some (TotalHitCount bp))
  /\ (forall i, i ∉ ID <$> payload -> bps' !! i = bps !! i).
Proof.
  intros Hnd Hreg bps'.
  destruct (reconcile_registered payload bps Hreg) as (rs & Hrun & Hlook).
  fold bps' in Hrun, Hlook.
  split; [exists rs; by rewrite Hrun|]. split.
  - intros bp cached Hin Hc.
    rewrite Hlook, Hc. cbn. rewrite reconciled_by_single by done.
    split; [done|]. by rewrite reconciled_total.
  - intros i Hi. rewrite Hlook.
    destruct (bps !! i) eqn:E; [|done]. cbn.
    by rewrite reconciled_by_other.
Qed.

Lemma reconcile_overwrites_iff_differs_witness :
  exists rendered,
    (reconcile [bp_with 1 7 "main.main"]
       {[ 1 := bp_with 1 5 "main.main" ]}).1 = Done rendered.
Proof.
  refine (proj1 (reconcile_overwrites_iff_differs
                   {[ 1 := bp_with 1 5 "main.main" ]}
                   [bp_with 1 7 "main.main"] _ _)).
  - apply NoDup_singleton.
  - constructor; [|constructor]. exists (bp_with 1 5 "main.main").
    vm_compute. reflexivity.
Defined.

(** C1 as stated fails in its last part: a payload that reports a smaller
    cumulative count than the cached one lowers the cached count. *)
Lemma reconcile_lowers_cached_count :
  TotalHitCount <$> ({[ 1 := bp_with 1 5 "main.main" ]} : gmap Z Breakpoint) !! 1
  = Some 5
  /\ TotalHitCount <$>
       (reconcile [bp_with 1 3 "main.main"]
          {[ 1 := bp_with 1 5 "main.main" ]}).2 !! 1
     = Some 3.
Proof. split; vm_compute; reflexivity. Qed.

Lemma reconcile_keeps_registered payload bps :
  registered bps payload ->
  registered (reconcile payload bps).2 payload.
Proof.
  intros Hreg.
  destruct (reconcile_registered payload bps Hreg) as (rs & _ & Hlook).
  eapply Forall_impl; [exact Hreg|]. intros x [c Hc]. cbn beta.
  rewrite Hlook, Hc. by eexists.
Qed.

(** C2: for every registry and every payload whose identifiers are
    registered (repeated identifiers included), applying the payload a
    second time panics no more than the first time and leaves the
    registry as the first application left it. *)
Theorem reconcile_idempotent
    (bps : gmap Z Breakpoint) (payload : list Breakpoint) :
  registered bps payload ->
  let once := (reconcile payload bps).2 in
  (exists rendered, (reconcile payload once).1 = Done rendered)
  /\ (reconcile payload once).2 = once.
Proof.
  intros Hreg once.
  destruct (reconcile_registered payload bps Hreg) as (rs & _ & Hlook).
  pose proof (reconcile_keeps_registered payload bps Hreg) as Hreg'.
  destruct (reconcile_registered payload _ Hreg') as (rs' & Hrun' & Hlook').
  fold once in Hlook, Hrun', Hlook'.
  split; [exists rs'; by rewrite Hrun'|].
  apply map_eq. intros i. rewrite Hlook', Hlook.
  destruct (bps !! i); [|done]. cbn.
  by rewrite reconciled_by_idempotent.
Qed.

Lemma reconcile_idempotent_witness :
  let payload := [bp_with 1 7 "main.main"; bp_with 1 7 "main.main"] in
  let once := (reconcile payload {[ 1 := bp_with 1 5 "main.main" ]}).2 in
  (reconcile payload once).2 = once.
Proof.
  refine (proj2 (reconcile_idempotent {[ 1 := bp_with 1 5 "main.main" ]}
                   [bp_with 1 7 "main.main"; bp_with 1 7 "main.main"] _)).
  repeat constructor; exists (bp_with 1 5 "main.main");
    vm_compute; reflexivity.
Defined.

(** ** Listing order *)

Global Instance ByID_le_total : Total ByID_le.
Proof.
  intros x y. unfold ByID_le, ByID_Less.
  destruct (Z.ltb_spec (ID y) (ID x)); [right|left]; [|done].
  apply Z.ltb_ge. lia.
Qed.

Global Instance ByID_le_trans : Transitive ByID_le.
Proof.
  intros x y z. unfold ByID_le, ByID_Less. rewrite !Z.ltb_ge. lia.
Qed.

(** The two facts about [sort.Sort] the development relies on. *)
Lemma sort_Sort_perm l : sort_Sort l ≡ₚ l.
Proof. apply merge_sort_Permutation. Qed.

Lemma sort_Sort_sorted l : StronglySorted ByID_le (sort_Sort l).
Proof. apply StronglySorted_merge_sort; apply _. Qed.

Lemma sorted_distinct_strict l :
  StronglySorted ByID_le l -> NoDup (ID <$> l) ->
  StronglySorted Z.lt (ID <$> l).
Proof.
  induction 1 as [|x l Hs IH Hall]; intros Hnd; [constructor|].
  rewrite fmap_cons in *. apply NoDup_cons in Hnd as [Hx Hnd].
  constructor; [by apply IH|].
  apply Forall_fmap, Forall_forall. intros y Hy. cbn.
  rewrite Forall_forall in Hall. specialize (Hall y Hy).
  unfold ByID_le, ByID_Less in Hall. apply Z.ltb_ge in Hall.
  assert (ID x ≠ ID y).
  { intros Heq. apply Hx. rewrite Heq. by apply (list_elem_of_fmap_2 ID). }
  lia.
Qed.

Lemma reconciled_ID bp c : ID (reconciled bp c) = ID c.
Proof. unfold reconciled. by case_decide. Qed.

Lemma keyed_by_ID_insert bps bp cached :
  keyed_by_ID bps -> bps !! ID bp = Some cached ->
  keyed_by_ID (<[ID bp := reconciled bp cached]> bps).
Proof.
  intros Hk Hc k c. rewrite lookup_insert. case_decide as Hi.
  - intros [= <-]. rewrite reconciled_ID. subst k. by apply Hk.
  - apply Hk.
Qed.

(** The descriptors rendered carry the identifiers of the payload, in
    payload order. *)
Lemma reconcile_rendered_ids payload : forall bps rendered,
  keyed_by_ID bps -> registered bps payload ->
  (reconcile payload bps).1 = Done rendered ->
  ID <$> rendered = ID <$> payload.
Proof.
  induction payload as [|bp rest IH]; intros bps rendered Hk Hreg.
  - cbn. by intros [= <-].
  - inversion Hreg as [|? ? [cached Hc] Hrest]; subst.
    cbn [reconcile]. run_M. rewrite (reconcile1_registered _ _ _ Hc).
    assert (Hreg' : registered (<[ID bp := reconciled bp cached]> bps) rest).
    { eapply Forall_impl; [exact Hrest|]. intros x [cx Hx]. cbn beta.
      rewrite lookup_insert. case_decide; eauto. }
    pose proof (fun rs => IH _ rs (keyed_by_ID_insert _ _ _ Hk Hc) Hreg')
      as IH'.
    destruct (reconcile rest (<[ID bp := reconciled bp cached]> bps))
      as [[rs|why] bps'] eqn:E; cbn [fst] in *; [|done].
    intros [= <-]. rewrite !fmap_cons, (IH' rs eq_refl). f_equal.
    case_decide; [done|]. by apply Hk.
Qed.

(** C3: for every set of breakpoints the server lists (distinct
    identifiers, all registered, each registered under its identifier),
    the descriptors rendered after a continue or a next are those
    breakpoints in strictly ascending order of identifier. *)
Theorem listing_sorted_by_ID
    (bps : gmap Z Breakpoint) (breakpoint : list Breakpoint) :
  NoDup (ID <$> breakpoint) ->
  registered bps breakpoint ->
  keyed_by_ID bps ->
  exists rendered,
    (reconcile (sort_Sort breakpoint) bps).1 = Done rendered
    /\ StronglySorted Z.lt (ID <$> rendered)
    /\ ID <$> rendered ≡ₚ ID <$> breakpoint.
Proof.
  intros Hnd Hreg Hk.
  assert (Hreg' : registered bps (sort_Sort breakpoint)).
  { unfold registered. by rewrite sort_Sort_perm. }
  destruct (reconcile_registered _ bps Hreg') as (rs & Hrun & _).
  exists rs. split; [by rewrite Hrun|].
  assert (Hids : ID <$> rs = ID <$> sort_Sort breakpoint).
  { apply (reconcile_rendered_ids _ bps); [done..|by rewrite Hrun]. }
  rewrite Hids. split.
  - apply sorted_distinct_strict; [apply sort_Sort_sorted|].
    by rewrite sort_Sort_perm.
  - by rewrite sort_Sort_perm.
Qed.

Lemma listing_sorted_by_ID_witness :
  exists rendered,
    (reconcile (sort_Sort [bp_with 2 1 "main.f"; bp_with 1 5 "main.main"])
       {[ 1 := bp_with 1 5 "main.main"; 2 := bp_with 2 0 "main.f" ]}).1
    = Done rendered
    /\ StronglySorted Z.lt (ID <$> rendered)
    /\ ID <$> rendered ≡ₚ [2; 1].
Proof.
  refine (listing_sorted_by_ID
            {[ 1 := bp_with 1 5 "main.main"; 2 := bp_with 2 0 "main.f" ]}
            [bp_with 2 1 "main.f"; bp_with 1 5 "main.main"] _ _ _).
  - cbn. apply NoDup_cons. split; [|apply NoDup_singleton].
    intros [=]%list_elem_of_singleton.
  - repeat constructor; eexists; vm_compute; reflexivity.
  - intros k c Hc.
    destruct (decide (k = 1)) as [->|H1];
      [vm_compute in Hc; by injection Hc as <-|].
    destruct (decide (k = 2)) as [->|H2];
      [vm_compute in Hc; by injection Hc as <-|].
    rewrite lookup_insert_ne, lookup_singleton_ne in Hc by done. done.
Defined.

(** ** Start of the client and unknown identifiers *)

(** The one registration the code makes on its own: the
    unrecovered-panic breakpoint is registered under -1 when the client
    starts, from the descriptor the server supplies; a listing that
    names it alone is then reconciled without a panic. *)
Theorem panic_breakpoint_registered_at_start
    (createBuffers p_Wait : M Globals error) (pid : Z)
    (panic_bp : Breakpoint) (g g1 : Globals) (cmd : Cmd) (d1 : DelveClient) :
  server g = Some cmd ->
  createBuffers (set_delve (Some {| procPid := pid; breakpoints := None |}) g)
  = (Done nil, g1) ->
  delve g1 = Some d1 ->
  (forall s, delve (p_Wait s).2 = delve s) ->
  delve (delveStartClient createBuffers p_Wait pid (Reply panic_bp) g).2
  = Some (set_breakpoints (Some {[ (-1) := panic_bp ]}) d1)
  /\ forall bp, ID bp = -1 ->
       exists rendered,
         (reconcile [bp] {[ (-1) := panic_bp ]}).1 = Done rendered.
Proof.
  intros Hs Hcb Hd Hw. split.
  - unfold delveStartClient, check, set_breaks_linecount. run_M.
    rewrite Hs. cbn [set_delve]. rewrite Hcb, Hd.
    match goal with
    | |- context [printBuffer ?b ?a ?data ?v] =>
        destruct (printBuffer b a data v) as [[[n [e|]]|why] v']
    end; cbn; try done.
    match goal with
    | |- context [SetWindowCursor ?w ?pos ?v] =>
        destruct (SetWindowCursor w pos v) as [[[e|]|why] v'']
    end; cbn; try done.
  - intros bp Hbp.
    assert (Hreg : registered ({[ (-1) := panic_bp ]} : gmap Z Breakpoint) [bp]).
    { constructor; [|constructor]. rewrite Hbp, lookup_singleton_eq. eauto. }
    destruct (reconcile_registered [bp] _ Hreg) as (rs & Hrun & _).
    exists rs. by rewrite Hrun.
Qed.

Lemma panic_breakpoint_registered_at_start_witness :
  delve (delveStartClient no_presentation no_presentation 4242
           (Reply (bp_with (-1) 0 "runtime.startpanic"))
           (set_delve None globals0)).2
  = delve globals0.
Proof.
  refine (proj1 (panic_breakpoint_registered_at_start
            no_presentation no_presentation 4242
            (bp_with (-1) 0 "runtime.startpanic")
            (set_delve None globals0)
            (set_delve (Some {| procPid := 4242; breakpoints := None |}) globals0)
            {| Cmd_Process := Some Running |}
            {| procPid := 4242; breakpoints := None |} _ _ _ _));
    reflexivity.
Defined.

(** A stop event whose breakpoint list names an identifier the registry
    does not hold ends in a nil-pointer panic, and the breakpoint is not
    registered. *)
Lemma unregistered_breakpoint_panics :
  let r := delveContinue (fun _ => no_presentation) (Some stopped_state)
             (Reply [bp_with 7 1 "main.f"]) globals0 in
  registry globals0 !! 7 = None
  /\ r.1 = Panic nil_deref
  /\ registry r.2 !! 7 = None.
Proof. repeat split; vm_compute; reflexivity. Qed.

(** ** Exit of the debuggee *)

(** C6 (as amended): when the answer to a continue or a next reports that
    the debuggee has exited, the call tells the user so ("Process <pid>
    has exited with status <n>"), returns without an error of its own and
    without a panic, and leaves the registry, the server handle, the
    buffers and the windows as they were.  The decision rests on that
    answer alone. *)
Theorem exited_answer_reported
    (parseThread : option Thread -> M Globals error)
    (g : Globals) (d : DelveClient) (st : DebuggerState)
    (ListBreakpoints : rpc (list Breakpoint)) :
  delve g = Some d ->
  Exited st = true ->
  let msg := exited_message (procPid d) (ExitStatus st) in
  let unchanged (r : exec error * Globals) :=
    r.1 = Done nil
    /\ delve r.2 = delve g /\ server r.2 = server g /\ breaks r.2 = breaks g
    /\ buffers (vim r.2) = buffers (vim g)
    /\ windows (vim r.2) = windows (vim g)
    /\ messages (vim r.2) = messages (vim g) ++ [msg] in
  unchanged (delveContinue parseThread (Some st) ListBreakpoints g)
  /\ unchanged (delveNext parseThread (Reply (Some st)) ListBreakpoints g).
Proof.
  intros Hd He msg unchanged. unfold unchanged, delveContinue, delveNext.
  unfold delvePrintDebug, log_Println, Echomsg. run_M.
  rewrite Hd, He. cbn. done.
Qed.

Lemma exited_answer_reported_witness :
  (delveContinue (fun _ => no_presentation) (Some exited_state)
     (Reply []) globals1).1 = Done nil.
Proof.
  refine (proj1 (proj1 (exited_answer_reported (fun _ => no_presentation)
            globals1
            {| procPid := 4242;
               breakpoints := Some {[ 1 := bp_with 1 5 "main.main" ]} |}
            exited_state (Reply []) _ _)));
    reflexivity.
Defined.

(** C6 as stated fails: the controller keeps no record of the exit.  After
    an answer that reported the exit, the next continue is sent like any
    other; when the server answers with a stop, it is processed and the
    registry changes. *)
Lemma continue_after_exit_is_processed :
  let after_exit :=
    delveContinue (fun _ => no_presentation) (Some exited_state)
      (Reply []) globals1 in
  let next :=
    delveContinue (fun _ => no_presentation) (Some stopped_state)
      (Reply [bp_with 1 6 "main.main"]) after_exit.2 in
  after_exit.1 = Done nil
  /\ TotalHitCount <$> registry after_exit.2 !! 1 = Some 5
  /\ next.1 = Done nil
  /\ TotalHitCount <$> registry next.2 !! 1 = Some 6.
Proof. repeat split; vm_compute; reflexivity. Qed.

(** ** Kill *)






(** ** The function list *)

(** C9, at the failing input: when the function-list RPC fails,
    [delveFunctionList] returns an empty list and a [nil] error, whereas
    [FunctionsCompletion] hands the error on. *)
Theorem delveFunctionList_swallows_failure :
  (delveFunctionList (Fail "connection is shut down") globals0).1
  = Done ([], nil)
  /\ FunctionsCompletion (Fail "connection is shut down")
     = ([], Some "connection is shut down"%string).
Proof. split; reflexivity. Qed.

(** ** More on the reconciliation loop *)

(** A payload either names registered identifiers only, or has a first
    entry whose identifier is not registered. *)
Lemma payload_cases (bps : gmap Z Breakpoint) payload :
  registered bps payload
  \/ exists p bp q,
       payload = p ++ bp :: q /\ registered bps p /\ bps !! ID bp = None.
Proof.
  induction payload as [|x rest IH].
  - left. constructor.
  - destruct (bps !! ID x) as [c|] eqn:Hx.
    + destruct IH as [Hreg|(p & bp & q & -> & Hp & Hbp)].
      * left. constructor; eauto.
      * right. exists (x :: p), bp, q. repeat split; [|done].
        constructor; eauto.
    + right. exists [], x, rest. repeat split; [constructor|done].
Qed.

Lemma registered_insert bps k c payload :
  registered bps payload -> registered (<[k := c]> bps) payload.
Proof.
  intros H. eapply Forall_impl; [exact H|]. intros x [cx Hx]. cbn beta.
  rewrite lookup_insert. case_decide; eauto.
Qed.

(** The loop stops at the first entry that is not registered: the
    entries before it are reconciled, the ones after it are not. *)
Lemma reconcile_until_unregistered p : forall bps bp q,
  registered bps p -> bps !! ID bp = None ->
  reconcile (p ++ bp :: q) bps = (Panic nil_deref, (reconcile p bps).2).
Proof.
  induction p as [|x p IH]; intros bps bp q Hreg Hbp.
  - cbn [app reconcile]. run_M. by rewrite (reconcile1_unregistered _ _ Hbp).
  - inversion Hreg as [|? ? [cached Hc] Hrest]; subst.
    cbn [app reconcile]. run_M. rewrite (reconcile1_registered _ _ _ Hc).
    assert (Hne : ID x ≠ ID bp) by congruence.
    rewrite (IH (<[ID x := reconciled x cached]> bps) bp q);
      [|by apply registered_insert|by rewrite lookup_insert_ne].
    destruct (reconcile_registered p (<[ID x := reconciled x cached]> bps))
      as (rs & Hrun & _); [by apply registered_insert|].
    rewrite Hrun. done.
Qed.

(** Whatever the payload, the registry after the loop is the registry
    before it with the hit counts of some entries taken over. *)
Lemma reconcile_lookup_any payload bps :
  exists done,
    forall i, (reconcile payload bps).2 !! i
              = reconciled_by i done <$> bps !! i.
Proof.
  destruct (payload_cases bps payload) as [Hreg|(p & bp & q & -> & Hp & Hbp)].
  - destruct (reconcile_registered payload bps Hreg) as (rs & _ & Hlook).
    by exists payload.
  - rewrite (reconcile_until_unregistered p bps bp q Hp Hbp). cbn [snd].
    destruct (reconcile_registered p bps Hp) as (rs & _ & Hlook).
    by exists p.
Qed.

(** X1: the loop never registers a breakpoint and never removes one:
    whatever the payload, and whether the loop panics or not, the
    registry holds the same identifiers after it as before. *)
Theorem reconcile_keeps_keys
    (payload : list Breakpoint) (bps : gmap Z Breakpoint) (k : Z) :
  is_Some ((reconcile payload bps).2 !! k) <-> is_Some (bps !! k).
Proof.
  destruct (reconcile_lookup_any payload bps) as (done & Hlook).
  rewrite Hlook. by rewrite fmap_is_Some.
Qed.

(** X2: the loop changes hit counts only: whatever the payload, every
    registered descriptor keeps its identifier, name, address, file,
    line, function and tracepoint flag. *)
Theorem reconcile_keeps_identity
    (payload : list Breakpoint) (bps : gmap Z Breakpoint) (k : Z)
    (c : Breakpoint) :
  bps !! k = Some c ->
  exists c', (reconcile payload bps).2 !! k = Some c'
             /\ same_breakpoint c' c.
Proof.
  intros Hc. destruct (reconcile_lookup_any payload bps) as (done & Hlook).
  exists (reconciled_by k done c). split.
  - by rewrite Hlook, Hc.
  - apply reconciled_by_same.
Qed.

Lemma reconcile_keeps_identity_witness :
  exists c',
    (reconcile [bp_with 1 9 "other.name"; bp_with 7 1 "main.f"]
       {[ 1 := bp_with 1 5 "main.main" ]}).2 !! 1 = Some c'
    /\ same_breakpoint c' (bp_with 1 5 "main.main").
Proof.
  apply (reconcile_keeps_identity
           [bp_with 1 9 "other.name"; bp_with 7 1 "main.f"]
           {[ 1 := bp_with 1 5 "main.main" ]} 1 (bp_with 1 5 "main.main")).
  reflexivity.
Defined.

(** X3: the loop returns exactly when every identifier of the payload is
    registered; otherwise it ends in a nil-pointer panic. *)
Theorem reconcile_returns_iff_registered
    (payload : list Breakpoint) (bps : gmap Z Breakpoint) :
  ((exists rendered, (reconcile payload bps).1 = Done rendered)
   <-> registered bps payload)
  /\ (~ registered bps payload ->
      (reconcile payload bps).1 = Panic nil_deref).
Proof.
  destruct (payload_cases bps payload) as [Hreg|(p & bp & q & -> & Hp & Hbp)].
  - destruct (reconcile_registered payload bps Hreg) as (rs & Hrun & _).
    split; [|done]. split; [done|]. intros _. exists rs. by rewrite Hrun.
  - rewrite (reconcile_until_unregistered p bps bp q Hp Hbp). cbn [fst].
    assert (Hnot : ~ registered bps (p ++ bp :: q)).
    { intros H. apply Forall_app in H as [_ H].
      inversion H as [|? ? [c Hc] _]; subst. congruence. }
    split; [|done]. split; [intros [rs [=]]|done].
Qed.

Lemma reconcile_returns_iff_registered_witness :
  (reconcile [bp_with 1 9 "main.main"; bp_with 7 1 "main.f"]
     {[ 1 := bp_with 1 5 "main.main" ]}).1 = Panic nil_deref.
Proof.
  apply (proj2 (reconcile_returns_iff_registered
                  [bp_with 1 9 "main.main"; bp_with 7 1 "main.f"]
                  {[ 1 := bp_with 1 5 "main.main" ]})).
  intros H. apply Forall_cons in H as [_ H]. apply Forall_cons in H as [[c Hc] _].
  vm_compute in Hc. discriminate.
Defined.

(** X4: when the loop meets an identifier that is not registered, the
    entries before it have been reconciled and stay so, and no entry
    after it is looked at: the registry is left half updated. *)
Theorem reconcile_stops_at_unregistered
    (p q : list Breakpoint) (bp : Breakpoint) (bps : gmap Z Breakpoint) :
  registered bps p ->
  bps !! ID bp = None ->
  reconcile (p ++ bp :: q) bps = (Panic nil_deref, (reconcile p bps).2).
Proof. apply reconcile_until_unregistered. Qed.

Lemma reconcile_stops_at_unregistered_witness :
  reconcile ([bp_with 1 9 "main.main"] ++ bp_with 7 1 "main.f"
               :: [bp_with 2 4 "main.g"])
    {[ 1 := bp_with 1 5 "main.main"; 2 := bp_with 2 0 "main.g" ]}
  = (Panic nil_deref,
     (reconcile [bp_with 1 9 "main.main"]
        {[ 1 := bp_with 1 5 "main.main"; 2 := bp_with 2 0 "main.g" ]}).2).
Proof.
  apply (reconcile_stops_at_unregistered
           [bp_with 1 9 "main.main"] [bp_with 2 4 "main.g"]
           (bp_with 7 1 "main.f")
           {[ 1 := bp_with 1 5 "main.main"; 2 := bp_with 2 0 "main.g" ]}).
  - repeat constructor. eexists. vm_compute. reflexivity.
  - vm_compute. reflexivity.
Defined.

Lemma reconcile_rendered_totals_aux payload : forall bps rendered,
  (reconcile payload bps).1 = Done rendered ->
  TotalHitCount <$> rendered = TotalHitCount <$> payload.
Proof.
  induction payload as [|bp rest IH]; intros bps rendered.
  - cbn. by intros [= <-].
  - cbn [reconcile]. run_M.
    destruct (bps !! ID bp) as [cached|] eqn:Hc.
    + rewrite (reconcile1_registered _ _ _ Hc).
      pose proof (IH (<[ID bp := reconciled bp cached]> bps)) as IH'.
      destruct (reconcile rest (<[ID bp := reconciled bp cached]> bps))
        as [[rs|why] bps'] eqn:E; cbn [fst] in *; [|done].
      intros [= <-]. rewrite !fmap_cons, (IH' rs eq_refl). f_equal.
      case_decide as Hd; done.
    + by rewrite (reconcile1_unregistered _ _ Hc).
Qed.

(** X5: what the loop hands to the rendering carries, entry by entry and
    in payload order, the cumulative hit count the server reported, and,
    when every descriptor is registered under its own identifier, the
    identifier of the payload entry. *)
Theorem reconcile_rendered_totals
    (payload rendered : list Breakpoint) (bps : gmap Z Breakpoint) :
  (reconcile payload bps).1 = Done rendered ->
  TotalHitCount <$> rendered = TotalHitCount <$> payload
  /\ (keyed_by_ID bps -> ID <$> rendered = ID <$> payload).
Proof.
  intros Hrun. split.
  - by apply (reconcile_rendered_totals_aux payload bps).
  - intros Hk. apply (reconcile_rendered_ids payload bps); [done| |done].
    destruct (payload_cases bps payload) as [Hreg|(p & bp & q & -> & Hp & Hbp)];
      [done|].
    rewrite (reconcile_until_unregistered p bps bp q Hp Hbp) in Hrun.
    discriminate.
Qed.

Lemma reconcile_rendered_totals_witness :
  TotalHitCount <$> [bp_with 1 5 "main.main"; bp_with 2 3 "main.g"]
  = [5; 3].
Proof.
  refine (proj1 (reconcile_rendered_totals
                   [bp_with 1 5 "other.name"; bp_with 2 3 "main.g"]
                   [bp_with 1 5 "main.main"; bp_with 2 3 "main.g"]
                   {[ 1 := bp_with 1 5 "main.main"; 2 := bp_with 2 0 "main.g" ]}
                   _)).
  vm_compute. reflexivity.
Defined.

Lemma reconciled_by_perm i p q c :
  NoDup (ID <$> p) -> p ≡ₚ q ->
  reconciled_by i p c = reconciled_by i q c.
Proof.
  intros Hnd Hpq.
  assert (Hndq : NoDup (ID <$> q)) by by rewrite <- Hpq.
  destruct (decide (i ∈ ID <$> p)) as [Hi|Hi].
  - apply list_elem_of_fmap in Hi as (bp & -> & Hbp).
    rewrite (reconciled_by_single p bp c Hnd Hbp).
    rewrite (reconciled_by_single q bp c Hndq); [done|by rewrite <- Hpq].
  - rewrite (reconciled_by_other i p c Hi).
    rewrite (reconciled_by_other i q c); [done|by rewrite <- Hpq].
Qed.

(** X6: for a payload of distinct, registered identifiers the registry
    after the loop does not depend on the order of the payload: sorting
    the listing by identifier changes the order of the rendering only. *)
Theorem reconcile_order_irrelevant
    (p q : list Breakpoint) (bps : gmap Z Breakpoint) :
  NoDup (ID <$> p) ->
  registered bps p ->
  p ≡ₚ q ->
  (reconcile q bps).2 = (reconcile p bps).2
  /\ (reconcile (sort_Sort p) bps).2 = (reconcile p bps).2.
Proof.
  intros Hnd Hreg.
  assert (H : forall q, p ≡ₚ q -> (reconcile q bps).2 = (reconcile p bps).2).
  { intros q' Hpq.
    assert (Hregq : registered bps q') by (unfold registered; by rewrite <- Hpq).
    destruct (reconcile_registered p bps Hreg) as (rs & _ & Hlook).
    destruct (reconcile_registered q' bps Hregq) as (rs' & _ & Hlook').
    apply map_eq. intros i. rewrite Hlook, Hlook'.
    destruct (bps !! i) as [c|]; [|done]. cbn. f_equal.
    symmetry. by apply reconciled_by_perm. }
  intros Hpq. split; [by apply H|]. apply H. by rewrite sort_Sort_perm.
Qed.

Lemma reconcile_order_irrelevant_witness :
  (reconcile [bp_with 2 3 "main.g"; bp_with 1 9 "main.main"]
     {[ 1 := bp_with 1 5 "main.main"; 2 := bp_with 2 0 "main.g" ]}).2
  = (reconcile [bp_with 1 9 "main.main"; bp_with 2 3 "main.g"]
       {[ 1 := bp_with 1 5 "main.main"; 2 := bp_with 2 0 "main.g" ]}).2.
Proof.
  refine (proj1 (reconcile_order_irrelevant
            [bp_with 1 9 "main.main"; bp_with 2 3 "main.g"]
            [bp_with 2 3 "main.g"; bp_with 1 9 "main.main"]
            {[ 1 := bp_with 1 5 "main.main"; 2 := bp_with 2 0 "main.g" ]}
            _ _ _)).
  - cbn. apply NoDup_cons. split; [|apply NoDup_singleton].
    intros [=]%list_elem_of_singleton.
  - repeat constructor; eexists; vm_compute; reflexivity.
  - apply Permutation_swap.
Defined.

(** ** More on breakpoint names *)

Lemma Split_no_dot s : has_dot s = false -> Strings.Split s "." = [s].
Proof.
  induction s as [|c r IH]; [done|].
  cbn [has_dot Strings.Split]. intros [Hc Hr]%orb_false_iff.
  by rewrite Hc, (IH Hr).
Qed.

(** A symbol with a dot, cut at its first dot. *)
Lemma first_dot s :
  has_dot s = true ->
  exists pkg r, has_dot pkg = false /\ s = pkg +:+ String "." r.
Proof.
  induction s as [|c r IH]; [done|]. cbn [has_dot].
  destruct (Ascii.eqb c ".") eqn:Hc.
  - intros _. apply Ascii.eqb_eq in Hc as ->.
    exists EmptyString, r. by sapp.
  - cbn [orb]. intros (pkg & r' & Hp & ->)%IH.
    exists (String c pkg), r'. sapp. split; [|done].
    cbn [has_dot]. by rewrite Hc, Hp.
Qed.

Lemma deriveName_no_dot sym :
  has_dot sym = false -> deriveName sym = Panic "index out of range [1]".
Proof. intros H. unfold deriveName. by rewrite (Split_no_dot _ H). Qed.

Lemma deriveName_nothing_after_dot pkg r :
  has_dot pkg = false ->
  r = EmptyString \/ (exists r', r = String "." r') ->
  deriveName (pkg +:+ String "." r)
  = Panic "slice bounds out of range [:1] with length 0".
Proof.
  intros Hp Hr. unfold deriveName. rewrite (Split_prefix _ _ Hp).
  destruct Hr as [->|[r' ->]]; done.
Qed.

Lemma deriveName_after_dot pkg c tail :
  has_dot pkg = false ->
  Ascii.eqb c "." = false ->
  exists n, deriveName (pkg +:+ String "." (String c tail)) = Done n.
Proof.
  intros Hp Hc. unfold deriveName. rewrite (Split_prefix _ _ Hp).
  destruct (Split_cons_other c tail "." Hc) as (h & t & Ht & ->).
  cbn -[Strings.Join String.append]. by eexists.
Qed.

(** X11: the name derivation returns a name exactly for the symbols that
    have a dot and a byte other than a dot right after their first dot.
    For every other symbol it panics: with an index out of range when
    the symbol has no dot, with a slice out of bounds when nothing, or a
    second dot, follows the first. *)
Theorem deriveName_returns_iff (sym : string) :
  ((exists n, deriveName sym = Done n)
   <-> exists pkg c tail,
         has_dot pkg = false /\ Ascii.eqb c "." = false
         /\ sym = pkg +:+ String "." (String c tail))
  /\ (has_dot sym = false ->
      deriveName sym = Panic "index out of range [1]").
Proof.
  split; [|apply deriveName_no_dot]. split.
  - intros [n Hn]. destruct (has_dot sym) eqn:Hd.
    + destruct (first_dot sym Hd) as (pkg & r & Hp & ->).
      destruct r as [|c tail].
      * rewrite deriveName_nothing_after_dot in Hn by auto. done.
      * destruct (Ascii.eqb c ".") eqn:Hc.
        -- apply Ascii.eqb_eq in Hc as ->.
           rewrite deriveName_nothing_after_dot in Hn by eauto. done.
        -- by exists pkg, c, tail.
    + rewrite deriveName_no_dot in Hn by done. done.
  - intros (pkg & c & tail & Hp & Hc & ->). by apply deriveName_after_dot.
Qed.

Lemma deriveName_returns_iff_witness :
  deriveName "main" = Panic "index out of range [1]".
Proof. apply (proj2 (deriveName_returns_iff "main")). reflexivity. Defined.

(** ** More on the buffer writer *)

Lemma set_buffers_set_buffers f g v :
  set_buffers f (set_buffers g v) = set_buffers (fun m => f (g m)) v.
Proof. done. Qed.

(** [printBuffer] on a valid buffer, result and editor together. *)
Lemma printBuffer_valid v b append data bf :
  buffers v !! b = Some bf ->
  printBuffer b append data v
  = (Done (start_of append (lines bf) + len data, nil),
     set_buffers
       <[b := {| lines := at_least_one_line
                            (take (Z.to_nat (start_of append (lines bf)))
                               (lines bf) ++ data);
                 modifiable := false |}]> v).
Proof.
  intros Hb. set (start := start_of append (lines bf)).
  assert (Hstart := start_of_bounds append (lines bf)). fold start in Hstart.
  assert (Hwrite :
    (SetBufferOption_modifiable b true;;
     err ← SetBufferLines b start (-1) true data;
     SetBufferOption_modifiable b false;;
     mret (M := M Vim) (start + len data, err)) v
    = (Done (start + len data, nil),
       set_buffers <[b := {| lines := at_least_one_line
                               (take (Z.to_nat start) (lines bf) ++ data);
                             modifiable := false |}]> v)).
  { run_M.
    rewrite (SetBufferOption_modifiable_valid _ _ _ _ Hb).
    erewrite SetBufferLines_tail;
      [|cbn; apply lookup_insert_eq|done|done].
    erewrite SetBufferOption_modifiable_valid;
      [|cbn; apply lookup_insert_eq].
    cbn [lines]. rewrite !set_buffers_set_buffers. f_equal.
    unfold set_buffers. f_equal. by rewrite !insert_insert_eq. }
  rewrite <- Hwrite. clear Hwrite Hstart.
  unfold printBuffer, start, start_of. destruct append.
  - unfold BufferLineCount, BufferLines. run_M. rewrite Hb.
    destruct (lines bf) as [|l0 [|l1 ls]] eqn:Hl.
    + change (len [] =? 1) with false. cbv beta iota.
      case_decide; [done|]. done.
    + change (len [l0] =? 1) with true. cbv beta iota.
      rewrite Hb, Hl. change (len [l0]) with 1.
      cbn [index Z.ltb Z.compare andb orb Z.add Z.max Z.min Z.sub Z.opp
           Z.pos_sub Z.to_nat Pos.to_nat Pos.iter_op Nat.add drop take
           Z.succ_double Z.pred_double Z.double Pos.pred_double].
      destruct l0 as [|c l0]; cbn [String.length Nat.eqb].
      * case_decide; [done|congruence].
      * case_decide; [congruence|done].
    + replace (len (l0 :: l1 :: ls) =? 1) with false
        by (symmetry; apply Z.eqb_neq; unfold len; cbn [length]; lia).
      cbv beta iota. case_decide; [congruence|done].
  - run_M. cbn. done.
Qed.

(** [printBuffer] on a handle the editor does not know. *)
Lemma printBuffer_invalid v b append data :
  buffers v !! b = None ->
  printBuffer b append data v
  = (Done (if append then 0 else len data, Some "Invalid buffer id"%string), v).
Proof.
  intros Hb. unfold printBuffer. destruct append.
  - unfold BufferLineCount. run_M. by rewrite Hb.
  - unfold SetBufferOption_modifiable, SetBufferLines. run_M.
    change (0 =? 1) with false. cbv beta iota.
    repeat (rewrite Hb; cbv beta iota). done.
Qed.

Lemma at_least_one_line_nonempty ls : ls <> [] -> at_least_one_line ls = ls.
Proof. by destruct ls. Qed.

Lemma len_app {A} (l k : list A) : len (l ++ k) = len l + len k.
Proof. unfold len. rewrite length_app. lia. Qed.

Lemma len_take_start append ls :
  len (take (Z.to_nat (start_of append ls)) ls) = start_of append ls.
Proof.
  pose proof (start_of_bounds append ls) as H. unfold len in *.
  rewrite length_take. lia.
Qed.

(** X7: [printBuffer] never panics: when it reads [buf[0]], the buffer
    has just been counted as holding one line, so the index is in
    range. *)
Theorem printBuffer_never_panics
    (v : Vim) (b : Z) (append : bool) (data : list string) :
  exists r, (printBuffer b append data v).1 = Done r.
Proof.
  destruct (buffers v !! b) as [bf|] eqn:Hb.
  - rewrite (printBuffer_valid _ _ _ _ _ Hb). by eexists.
  - rewrite (printBuffer_invalid _ _ _ _ Hb). by eexists.
Qed.

(** X8: on a buffer handle the editor does not know, [printBuffer]
    returns the editor's error and writes nothing; the line count it
    returns with the error is 0 when appending and the number of lines of
    [data] otherwise. *)
Theorem printBuffer_invalid_buffer
    (v : Vim) (b : Z) (append : bool) (data : list string) :
  buffers v !! b = None ->
  printBuffer b append data v
  = (Done (if append then 0 else len data, Some "Invalid buffer id"%string), v).
Proof. apply printBuffer_invalid. Qed.

Lemma printBuffer_invalid_buffer_witness :
  printBuffer 9 false ["a"; "b"]%string vim0
  = (Done (2, Some "Invalid buffer id"%string), vim0).
Proof.
  apply (printBuffer_invalid_buffer vim0 9 false ["a"; "b"]%string).
  reflexivity.
Defined.

(** X9: for a valid buffer and at least one line of data, the count
    [printBuffer] returns is the line count of the buffer after the
    write, so that the cursor placement its callers do next, at line
    [count] of a window showing the buffer, succeeds. *)
Theorem printBuffer_count_is_line_count
    (v : Vim) (b : Z) (append : bool) (data : list string) (bf : Buf)
    (w : Z) (wn : Win) :
  buffers v !! b = Some bf ->
  data <> [] ->
  windows v !! w = Some wn ->
  wbuffer wn = b ->
  exists n v',
    printBuffer b append data v = (Done (n, nil), v')
    /\ BufferLineCount b v' = (Done (n, nil), v')
    /\ (SetWindowCursor w (n, 0) v').1 = Done nil
    /\ (cursor <$> windows (SetWindowCursor w (n, 0) v').2 !! w) = Some (n, 0).
Proof.
  intros Hb Hdata Hw Hwb.
  rewrite (printBuffer_valid _ _ _ _ _ Hb).
  set (start := start_of append (lines bf)).
  eexists _, _. split; [done|].
  assert (Hne : take (Z.to_nat start) (lines bf) ++ data <> []).
  { intros H. apply app_eq_nil in H as [_ H]. done. }
  rewrite (at_least_one_line_nonempty _ Hne).
  assert (Hlen : len (take (Z.to_nat start) (lines bf) ++ data)
                 = start + len data).
  { rewrite len_app. unfold start. by rewrite len_take_start. }
  assert (Hpos : 1 <= start + len data).
  { pose proof (start_of_bounds append (lines bf)). fold start in H.
    destruct data; [done|]. unfold len. cbn [length]. lia. }
  unfold BufferLineCount, SetWindowCursor. run_M.
  cbn [buffers windows set_buffers]. rewrite lookup_insert_eq.
  cbn [lines]. rewrite Hlen. split; [done|].
  rewrite Hw, Hwb, lookup_insert_eq. cbn [lines fst]. rewrite Hlen.
  rewrite (proj2 (Z.ltb_ge (start + len data) 1)) by lia.
  rewrite Z.ltb_irrefl. cbn [orb fst snd set_windows windows].
  split; [done|]. by rewrite lookup_insert_eq.
Qed.

Lemma printBuffer_count_is_line_count_witness :
  exists n v',
    printBuffer 1 true ["a"; "b"]%string vim0 = (Done (n, nil), v')
    /\ BufferLineCount 1 v' = (Done (n, nil), v')
    /\ (SetWindowCursor 1 (n, 0) v').1 = Done nil
    /\ (cursor <$> windows (SetWindowCursor 1 (n, 0) v').2 !! 1) = Some (n, 0).
Proof.
  apply (printBuffer_count_is_line_count vim0 1 true ["a"; "b"]%string
           {| lines := [EmptyString]; modifiable := false |} 1
           {| wbuffer := 1; cursor := (1, 0) |});
    [reflexivity|discriminate|reflexivity|reflexivity].
Defined.

Lemma take_len {A} (l : list A) : take (Z.to_nat (len l)) l = l.
Proof. unfold len. by rewrite Nat2Z.id, firstn_all. Qed.

Lemma start_of_true_nonsingle ls :
  ls <> [EmptyString] -> start_of true ls = len ls.
Proof. intros H. unfold start_of. by rewrite decide_False. Qed.

(** X10: two appends in a row write what one append of both pieces
    writes, and return its count, unless the first piece is a single
    empty line: written to an empty buffer, that line leaves the buffer
    looking empty, and the second append overwrites it. *)
Theorem printBuffer_append_twice
    (v : Vim) (b : Z) (d1 d2 : list string) (bf : Buf) :
  buffers v !! b = Some bf ->
  d1 <> [EmptyString] ->
  (_ ← printBuffer b true d1; printBuffer b true d2) v
  = printBuffer b true (d1 ++ d2) v.
Proof.
  intros Hb Hd1. run_M.
  rewrite (printBuffer_valid _ _ _ _ _ Hb).
  rewrite (printBuffer_valid v b true (d1 ++ d2) bf Hb).
  set (s := start_of true (lines bf)).
  erewrite printBuffer_valid; [|cbn [buffers set_buffers]; apply lookup_insert_eq].
  cbn [lines]. rewrite set_buffers_set_buffers. fold s.
  set (l1 := at_least_one_line (take (Z.to_nat s) (lines bf) ++ d1)).
  assert (Hs : len (take (Z.to_nat s) (lines bf)) = s)
    by apply len_take_start.
  assert (Hcase :
    (take (Z.to_nat s) (lines bf) ++ d1 = [] /\ l1 = [EmptyString])
    \/ (l1 = take (Z.to_nat s) (lines bf) ++ d1 /\ l1 <> [EmptyString]
        /\ l1 <> [])).
  { destruct (take (Z.to_nat s) (lines bf) ++ d1) as [|x xs] eqn:E.
    - by left.
    - right. unfold l1. cbn. split; [done|]. split; [|done].
      intros [= -> ->].
      destruct (take (Z.to_nat s) (lines bf)) as [|y ys] eqn:Et.
      + cbn in E. done.
      + (* the kept lines are the whole buffer, which is not one empty line *)
        cbn in E. injection E as -> Hxs.
        apply app_eq_nil in Hxs as [-> ->].
        unfold s, start_of in Et.
        case_decide as Hls; [done|].
        unfold len in Et. rewrite Nat2Z.id, firstn_all in Et. done. }
  destruct Hcase as [[Hnil Hl1]|(Hl1 & Hne & Hne')].
  - apply app_eq_nil in Hnil as [Ht ->]. cbn [app] in *.
    rewrite Hl1. unfold start_of at 1 2. rewrite decide_True by done.
    change (Z.to_nat 0) with 0%nat. cbn [take app].
    rewrite Ht in Hs. change (len []) with 0 in Hs. rewrite <- Hs.
    change (Z.to_nat 0) with 0%nat. cbn [take app]. f_equal.
    unfold set_buffers. f_equal. by rewrite insert_insert_eq.
  - rewrite (start_of_true_nonsingle l1 Hne), take_len.
    assert (Hlen : len l1 = s + len d1) by (rewrite Hl1, len_app; lia).
    rewrite Hlen, len_app, Z.add_assoc. f_equal.
    unfold set_buffers. f_equal. rewrite insert_insert_eq.
    by rewrite Hl1, <- app_assoc.
Qed.

Lemma printBuffer_append_twice_witness :
  (_ ← printBuffer 1 true ["a"]%string; printBuffer 1 true ["b"]%string) vim0
  = printBuffer 1 true ["a"; "b"]%string vim0.
Proof.
  apply (printBuffer_append_twice vim0 1 ["a"]%string ["b"]%string
           {| lines := [EmptyString]; modifiable := false |});
    [reflexivity|discriminate].
Defined.

(** ** More on the controller *)

Lemma liftV_delve {A} (m : M Vim A) g : delve (liftV m g).2 = delve g.
Proof. unfold liftV. by destruct (m (vim g)). Qed.

Lemma liftV_run {A} (m : M Vim A) g r v :
  m (vim g) = (r, v) -> liftV m g = (r, set_vim v g).
Proof. unfold liftV. by intros ->. Qed.

(** X12: [delveBreakpoint] with a symbol that has no dot and no explicit
    name panics on [bpslice[1]] before anything is sent to the server or
    changed. *)
Theorem delveBreakpoint_symbol_without_dot
    (newSign : string -> M Globals error) (sym : string)
    (CreateBreakpoint : Breakpoint -> rpc Breakpoint) (g : Globals) :
  has_dot sym = false ->
  delveBreakpoint newSign [sym] CreateBreakpoint g
  = (Panic "index out of range [1]", g).
Proof.
  intros H. unfold delveBreakpoint. by rewrite (deriveName_no_dot _ H).
Qed.

Lemma delveBreakpoint_symbol_without_dot_witness :
  delveBreakpoint (fun _ => no_presentation) ["main"]%string
    (fun bp => Reply bp) globals0
  = (Panic "index out of range [1]", globals0).
Proof.
  apply (delveBreakpoint_symbol_without_dot (fun _ => no_presentation)
           "main" (fun bp => Reply bp) globals0).
  reflexivity.
Defined.

(** X13: when the server creates the breakpoint, [delveBreakpoint]
    registers the descriptor it answers under its identifier, replacing
    a descriptor registered there, before it renders anything: the
    breakpoint is registered whatever becomes of the sign and of the
    buffer, and the other identifiers keep their descriptors. *)
Theorem delveBreakpoint_registers_reply
    (newSign : string -> M Globals error) (sym bpName : string)
    (CreateBreakpoint : Breakpoint -> rpc Breakpoint) (newbp : Breakpoint)
    (g : Globals) (d : DelveClient) (bps : gmap Z Breakpoint) :
  (forall f s, delve (newSign f s).2 = delve s) ->
  delve g = Some d ->
  breakpoints d = Some bps ->
  CreateBreakpoint (breakpoint_request sym bpName) = Reply newbp ->
  let after := (delveBreakpoint newSign [sym; bpName] CreateBreakpoint g).2 in
  registry after = <[ID newbp := newbp]> bps
  /\ registry after !! ID newbp = Some newbp
  /\ forall k, k <> ID newbp -> registry after !! k = bps !! k.
Proof.
  intros Hsign Hd Hbps Hreply after.
  assert (Hreg : registry after = <[ID newbp := newbp]> bps).
  { unfold after, registry, delveBreakpoint, delvePrintDebug, log_Println,
      set_breaks_linecount, EchohlErr.
    run_M. rewrite Hd, Hreply, Hbps.
    match goal with
    | |- context [newSign ?f ?s] =>
        pose proof (Hsign f s) as Hs;
        destruct (newSign f s) as [[[e|]|why] g1]
    end; cbn [fst snd] in Hs; cbn [set_delve delve] in Hs.
    - cbn. by rewrite Hs.
    - cbn [delve set_vim vim breaks].
      match goal with
      | |- context [printBuffer ?b ?a ?data ?v] =>
          destruct (printBuffer b a data v) as [[[n [e|]]|why] v']
      end; cbn; rewrite ?Hs; try done.
      match goal with
      | |- context [SetWindowCursor ?w ?pos ?v] =>
          destruct (SetWindowCursor w pos v) as [[[e|]|why] v'']
      end; cbn; rewrite ?Hs; done.
    - cbn. by rewrite Hs. }
  rewrite Hreg. split; [done|]. split.
  - apply lookup_insert_eq.
  - intros k Hk. by rewrite lookup_insert_ne.
Qed.

Lemma delveBreakpoint_registers_reply_witness :
  registry (delveBreakpoint (fun _ => no_presentation)
              ["main.f"; "mainF"]%string
              (fun _ => Reply (bp_with 2 0 "main.f")) globals0).2 !! 2
  = Some (bp_with 2 0 "main.f").
Proof.
  refine (proj1 (proj2 (delveBreakpoint_registers_reply
            (fun _ => no_presentation) "main.f" "mainF"
            (fun _ => Reply (bp_with 2 0 "main.f")) (bp_with 2 0 "main.f")
            globals0
            {| procPid := 4242;
               breakpoints :=
                 Some {[ (-1) := bp_with (-1) 0 "runtime.startpanic" ]} |}
            {[ (-1) := bp_with (-1) 0 "runtime.startpanic" ]} _ _ _ _)));
    reflexivity.
Defined.

(** X14: when the buffers of the debug tab cannot be created,
    [delveStartClient] returns that error with the client created but
    its registry still a [nil] map; the next [delveBreakpoint] the
    server accepts then panics on the assignment to the registry, after
    the server has created the breakpoint. *)
Theorem breakpoint_after_failed_start_panics
    (createBuffers p_Wait : M Globals error)
    (newSign : string -> M Globals error)
    (pid : Z) (GetBreakpoint : rpc Breakpoint)
    (sym bpName : string) (CreateBreakpoint : Breakpoint -> rpc Breakpoint)
    (newbp : Breakpoint) (g g1 : Globals) (cmd : Cmd) (e : string) :
  server g = Some cmd ->
  createBuffers (set_delve (Some {| procPid := pid; breakpoints := None |}) g)
  = (Done (Some e), g1) ->
  delve g1 = Some {| procPid := pid; breakpoints := None |} ->
  CreateBreakpoint (breakpoint_request sym bpName) = Reply newbp ->
  delveStartClient createBuffers p_Wait pid GetBreakpoint g
  = (Done (Some e), g1)
  /\ delveBreakpoint newSign [sym; bpName] CreateBreakpoint g1
     = (Panic "assignment to entry in nil map", g1).
Proof.
  intros Hs Hcb Hd Hreply. split.
  - unfold delveStartClient. run_M. rewrite Hs. cbn [set_delve].
    by rewrite Hcb.
  - unfold delveBreakpoint. run_M. by rewrite Hd, Hreply.
Qed.

Lemma breakpoint_after_failed_start_panics_witness :
  delveBreakpoint (fun _ => no_presentation) ["main.f"; "mainF"]%string
    (fun _ => Reply (bp_with 2 0 "main.f")) globals_no_registry
  = (Panic "assignment to entry in nil map", globals_no_registry).
Proof.
  refine (proj2 (breakpoint_after_failed_start_panics
            failing_presentation no_presentation (fun _ => no_presentation)
            4242 (Reply (bp_with (-1) 0 "runtime.startpanic"))
            "main.f" "mainF" (fun _ => Reply (bp_with 2 0 "main.f"))
            (bp_with 2 0 "main.f") (set_delve None globals0)
            globals_no_registry {| Cmd_Process := Some Running |}
            "Invalid window id" _ _ _ _));
    reflexivity.
Defined.

(** ** Detach *)

Lemma delveKill_running g :
  server g = Some {| Cmd_Process := Some Running |} ->
  delveKill g
  = (Done nil,
     (log_Println "Killed delve server"
        (set_server (Some {| Cmd_Process := Some Finished |}) g)).2).
Proof. intros Hs. unfold delveKill, log_Println. run_M. by rewrite Hs. Qed.

Lemma defer_kill_running {A} (body : M Globals A) g :
  server (body g).2 = Some {| Cmd_Process := Some Running |} ->
  defer delveKill body g
  = ((body g).1,
     (log_Println "Killed delve server"
        (set_server (Some {| Cmd_Process := Some Finished |}) (body g).2)).2).
Proof.
  intros Hs. unfold defer. destruct (body g) as [r g1]. cbn [fst snd] in *.
  by rewrite (delveKill_running _ Hs).
Qed.

(** X15: [delveDetach] always kills a running server on its way out:
    whether a client exists or the body panics on [delve], whatever the
    process identifier, and whatever closing the buffers and the detach
    request answer, the server process is dead afterwards and the kill
    is the last line of the log. *)
Theorem delveDetach_always_kills
    (closeBuffers : M Globals error) (Detach : error) (g : Globals) :
  (forall s, server (closeBuffers s).2 = server s) ->
  server g = Some {| Cmd_Process := Some Running |} ->
  let after := (delveDetach closeBuffers Detach g).2 in
  server after = Some {| Cmd_Process := Some Finished |}
  /\ last (log after) = Some "Killed delve server"%string.
Proof.
  intros Hcb Hs after. unfold after, delveDetach.
  rewrite defer_kill_running.
  - cbn [snd]. unfold log_Println, modify. cbn [snd log server set_server].
    split; [done|]. by rewrite last_snoc.
  - run_M. destruct (delve g) as [d|]; [|done].
    destruct (procPid d =? 0); [done|].
    pose proof (Hcb g) as Hg.
    destruct (closeBuffers g) as [[[e|]|why] g1]; cbn [fst snd] in *;
      try congruence.
    destruct Detach; cbn; congruence.
Qed.

Lemma delveDetach_always_kills_witness :
  server (delveDetach no_presentation (Some "connection is shut down"%string)
            (set_delve None globals0)).2
  = Some {| Cmd_Process := Some Finished |}.
Proof.
  refine (proj1 (delveDetach_always_kills no_presentation
            (Some "connection is shut down"%string)
            (set_delve None globals0) _ _)); reflexivity.
Defined.

(** X16: with a process identifier of 0 [delveDetach] neither closes the
    buffers nor sends the detach request: it does what [delveKill] does
    and returns [nil], also when the kill itself returned an error. *)
Theorem delveDetach_without_process
    (closeBuffers : M Globals error) (Detach : error)
    (g : Globals) (d : DelveClient) :
  delve g = Some d ->
  procPid d = 0 ->
  (forall cmd, server g = Some cmd -> is_Some (Cmd_Process cmd)) ->
  delveDetach closeBuffers Detach g = (Done nil, (delveKill g).2).
Proof.
  intros Hd Hp Hs. unfold delveDetach, defer. run_M. rewrite Hd, Hp.
  change (0 =? 0) with true. cbv iota.
  unfold delveKill, log_Println. run_M.
  destruct (server g) as [cmd|] eqn:Hcmd; [|done].
  destruct (Hs cmd eq_refl) as [p Hproc]. rewrite Hproc.
  by destruct p.
Qed.

Lemma delveDetach_without_process_witness :
  let g := set_server (Some {| Cmd_Process := Some Waited |})
             (set_delve (Some {| procPid := 0; breakpoints := None |})
                globals0) in
  delveDetach failing_presentation nil g = (Done nil, (delveKill g).2)
  /\ (delveKill g).1 = Done (Some "os: process already finished"%string).
Proof.
  split; [|reflexivity].
  apply (delveDetach_without_process failing_presentation nil _
           {| procPid := 0; breakpoints := None |});
    [reflexivity|reflexivity|].
  intros cmd [= <-]. by eexists.
Defined.

(** ** Failing requests and missing states *)

(** X17: [delveNext] hands on the error of a failing [Next] request, and
    of a failing [ListBreakpoints] request after a stop, as its own
    result; in both cases nothing of the session has changed and the
    thread is not parsed. *)
Theorem delveNext_surfaces_rpc_failures
    (parseThread : option Thread -> M Globals error)
    (g : Globals) (d : DelveClient) (e : string) (st : DebuggerState)
    (ListBreakpoints : rpc (list Breakpoint)) :
  delve g = Some d ->
  delveNext parseThread (Fail e) ListBreakpoints g = (Done (Some e), g)
  /\ (Exited st = false ->
      delveNext parseThread (Reply (Some st)) (Fail e) g = (Done (Some e), g)).
Proof.
  intros Hd. unfold delveNext, refreshBreakpoints. run_M. rewrite Hd.
  split; [done|]. by intros ->.
Qed.

Lemma delveNext_surfaces_rpc_failures_witness :
  delveNext (fun _ => no_presentation) (Reply (Some stopped_state))
    (Fail "connection is shut down") globals1
  = (Done (Some "connection is shut down"%string), globals1).
Proof.
  refine (proj2 (delveNext_surfaces_rpc_failures (fun _ => no_presentation)
            globals1
            {| procPid := 4242;
               breakpoints := Some {[ 1 := bp_with 1 5 "main.main" ]} |}
            "connection is shut down" stopped_state (Reply []) _) _);
    reflexivity.
Defined.

(** X18: a [nil] state makes both [delveContinue] and [delveNext] panic:
    the test [state == nil || state.Exited] sends it into the branch
    that reads [state.ExitStatus].  Nothing is reported to the user. *)
Theorem nil_state_panics
    (parseThread : option Thread -> M Globals error)
    (g : Globals) (d : DelveClient)
    (ListBreakpoints : rpc (list Breakpoint)) :
  delve g = Some d ->
  let c := delveContinue parseThread None ListBreakpoints g in
  let n := delveNext parseThread (Reply None) ListBreakpoints g in
  c.1 = Panic nil_deref /\ messages (vim c.2) = messages (vim g)
  /\ n = (Panic nil_deref, g).
Proof.
  intros Hd. unfold delveContinue, delveNext, delvePrintDebug, log_Println.
  run_M. rewrite Hd. done.
Qed.

Lemma nil_state_panics_witness :
  delveNext (fun _ => no_presentation) (Reply None) (Reply []) globals1
  = (Panic nil_deref, globals1).
Proof.
  refine (proj2 (proj2 (nil_state_panics (fun _ => no_presentation) globals1
            {| procPid := 4242;
               breakpoints := Some {[ 1 := bp_with 1 5 "main.main" ]} |}
            (Reply []) _))); reflexivity.
Defined.

(** ** The refresh of the breakpoint buffer *)

Lemma with_breakpoints_run {A} (m : M (gmap Z Breakpoint) A) g d bps r bps' :
  delve g = Some d -> breakpoints d = Some bps -> m bps = (r, bps') ->
  with_breakpoints m g
  = (r, set_delve (Some (set_breakpoints (Some bps') d)) g).
Proof.
  intros Hd Hb Hm. unfold with_breakpoints. by rewrite Hd, Hb, Hm.
Qed.

(** X19: after a stop, with the breakpoint buffer valid and shown in its
    window and every listed breakpoint registered, the refresh returns
    [nil]: the registry is reconciled with the sorted listing, the
    buffer holds the rendered listing and nothing else, the recorded
    line count is the buffer's, and the cursor is on its last line. *)
Theorem refreshBreakpoints_succeeds
    (breakpoint : list Breakpoint) (g : Globals) (d : DelveClient)
    (bps : gmap Z Breakpoint) (bf : Buf) (wn : Win) :
  delve g = Some d ->
  breakpoints d = Some bps ->
  registered bps breakpoint ->
  buffers (vim g) !! buffer (breaks g) = Some bf ->
  windows (vim g) !! window (breaks g) = Some wn ->
  wbuffer wn = buffer (breaks g) ->
  exists rendered g',
    refreshBreakpoints (Reply breakpoint) g = (Done nil, g')
    /\ reconcile (sort_Sort breakpoint) bps = (Done rendered, registry g')
    /\ buffers (vim g') !! buffer (breaks g')
       = Some {| lines := Strings.Split (bplines rendered) newline;
                 modifiable := false |}
    /\ linecount (breaks g')
       = len (Strings.Split (bplines rendered) newline)
    /\ cursor <$> windows (vim g') !! window (breaks g')
       = Some (linecount (breaks g'), 0).
Proof.
  intros Hd Hbps Hreg Hbuf Hwin Hwb.
  assert (Hreg' : registered bps (sort_Sort breakpoint)).
  { unfold registered. by rewrite sort_Sort_perm. }
  destruct (reconcile_registered _ bps Hreg') as (rendered & Hrun & _).
  set (bps' := (reconcile (sort_Sort breakpoint) bps).2) in *.
  set (data := Strings.Split (bplines rendered) newline).
  assert (Hdata : data <> []) by apply Split_nonempty.
  exists rendered. eexists. 
  unfold refreshBreakpoints, delvePrintDebug, log_Println,
    set_breaks_linecount.
  cbv [mbind M_bind bind mret M_ret ret get modify panic check nil].
  erewrite with_breakpoints_run; [|exact Hd|exact Hbps|exact Hrun].
  cbn [breaks set_delve vim].
  erewrite (liftV_run (printBuffer _ _ _));
    [|cbn [vim set_delve]; apply (printBuffer_valid _ _ _ _ _ Hbuf)].
  cbn [start_of]. change (Z.to_nat 0) with 0%nat. rewrite take_0. cbn [app].
  fold data. rewrite (at_least_one_line_nonempty _ Hdata).
  unfold nil. cbv beta iota.
  cbn [breaks set_vim set_breaks set_delve set_linecount window linecount
       vim buffer].
  assert (Hpos : 1 <= 0 + len data).
  { destruct data; [done|]. unfold len. cbn [length]. lia. }
  erewrite (liftV_run (SetWindowCursor _ _)).
  2:{ unfold SetWindowCursor. run_M.
      cbn [windows buffers set_buffers vim set_breaks set_vim].
      rewrite Hwin, Hwb, lookup_insert_eq. cbn [lines fst].
      rewrite (proj2 (Z.ltb_ge (0 + len data) 1)) by lia.
      rewrite (proj2 (Z.ltb_ge (len data) (0 + len data))) by lia.
      cbn [orb]. reflexivity. }
  split; [reflexivity|].
  cbn [registry delve set_vim set_breaks set_delve breakpoints set_breakpoints
       default vim breaks buffer window linecount set_linecount
       buffers windows set_windows set_buffers].
  split; [by rewrite Hrun|].
  split; [by rewrite lookup_insert_eq|].
  split; [lia|]. by rewrite lookup_insert_eq.
Qed.

Lemma refreshBreakpoints_succeeds_witness :
  exists rendered g',
    refreshBreakpoints (Reply [bp_with 1 6 "main.main"]) globals1
    = (Done nil, g')
    /\ reconcile (sort_Sort [bp_with 1 6 "main.main"])
         {[ 1 := bp_with 1 5 "main.main" ]}
       = (Done rendered, registry g')
    /\ buffers (vim g') !! buffer (breaks g')
       = Some {| lines := Strings.Split (bplines rendered) newline;
                 modifiable := false |}
    /\ linecount (breaks g')
       = len (Strings.Split (bplines rendered) newline)
    /\ cursor <$> windows (vim g') !! window (breaks g')
       = Some (linecount (breaks g'), 0).
Proof.
  apply (refreshBreakpoints_succeeds [bp_with 1 6 "main.main"] globals1
           {| procPid := 4242;
              breakpoints := Some {[ 1 := bp_with 1 5 "main.main" ]} |}
           {[ 1 := bp_with 1 5 "main.main" ]}
           {| lines := [EmptyString]; modifiable := false |}
           {| wbuffer := 1; cursor := (1, 0) |});
    try reflexivity.
  repeat constructor. eexists. vm_compute. reflexivity.
Defined.

(** ** Stops that name an unregistered breakpoint *)

(** The block shared by [delveContinue] and [delveNext], run on a listing
    that names an identifier the registry does not hold. *)
Lemma refresh_unregistered g d bps breakpoint bp :
  delve g = Some d ->
  breakpoints d = Some bps ->
  bp ∈ breakpoint ->
  bps !! ID bp = None ->
  let r := refreshBreakpoints (Reply breakpoint) g in
  r.1 = Panic nil_deref
  /\ registry r.2 !! ID bp = None
  /\ vim r.2 = vim g.
Proof.
  intros Hd Hbps Hin Hbp r. unfold r. clear r.
  destruct (payload_cases bps (sort_Sort breakpoint))
    as [Hreg|(p & x & q & Hsplit & Hp & Hx)].
  - exfalso. unfold registered in Hreg. rewrite sort_Sort_perm in Hreg.
    rewrite Forall_forall in Hreg. destruct (Hreg bp Hin) as [c Hc]. congruence.
  - unfold refreshBreakpoints, delvePrintDebug, log_Println.
    cbv [mbind M_bind bind mret M_ret ret get modify panic check nil].
    erewrite with_breakpoints_run;
      [|exact Hd|exact Hbps
       |rewrite Hsplit; apply (reconcile_until_unregistered p bps x q Hp Hx)].
    cbn [fst snd registry delve set_delve breakpoints set_breakpoints default
         vim].
    split; [done|]. split; [|done].
    destruct (reconcile_registered p bps Hp) as (rs & _ & Hlook).
    by rewrite Hlook, Hbp.
Qed.

(** C4, at the failing inputs: a stop whose listing names an identifier
    the registry does not hold is not processed.  Reading the hit count
    through the [nil] entry of the map panics; the breakpoint is not
    registered, lazily or otherwise, and nothing of the listing is
    rendered.  This is so for [delveNext], and for [delveContinue] once
    the thread has been parsed. *)
Theorem stop_naming_unregistered_id_panics
    (parseThread : option Thread -> M Globals error)
    (g : Globals) (d : DelveClient) (bps : gmap Z Breakpoint)
    (st : DebuggerState) (breakpoint : list Breakpoint) (bp : Breakpoint) :
  delve g = Some d ->
  breakpoints d = Some bps ->
  Exited st = false ->
  bp ∈ breakpoint ->
  bps !! ID bp = None ->
  let next := delveNext parseThread (Reply (Some st)) (Reply breakpoint) g in
  let continue := delveContinue parseThread (Some st) (Reply breakpoint) g in
  (next.1 = Panic nil_deref
   /\ registry next.2 !! ID bp = None
   /\ vim next.2 = vim g)
  /\ (forall g1,
        parseThread (CurrentThread st) (delvePrintDebug "state" g).2
        = (Done nil, g1) ->
        delve g1 = Some d ->
        continue.1 = Panic nil_deref
        /\ registry continue.2 !! ID bp = None
        /\ vim continue.2 = vim g1).
Proof.
  intros Hd Hbps Hex Hin Hbp next continue. split.
  - destruct (refresh_unregistered g d bps breakpoint bp Hd Hbps Hin Hbp)
      as (Hp & Hr & Hv).
    unfold next, delveNext. run_M. rewrite Hd, Hex.
    destruct (refreshBreakpoints (Reply breakpoint) g) as [[e|why] g'];
      cbn [fst snd] in *; [done|]. injection Hp as ->. done.
  - intros g1 Hpt Hd1.
    destruct (refresh_unregistered g1 d bps breakpoint bp Hd1 Hbps Hin Hbp)
      as (Hp & Hr & Hv).
    unfold continue, delveContinue. unfold delvePrintDebug, log_Println in *.
    run_M. rewrite Hd, Hex. cbn [snd] in Hpt. rewrite Hpt.
    destruct (refreshBreakpoints (Reply breakpoint) g1) as [[e|why] g'];
      cbn [fst snd] in *; [done|]. injection Hp as ->. done.
Qed.

Lemma stop_naming_unregistered_id_panics_witness :
  let next := delveNext (fun _ => no_presentation) (Reply (Some stopped_state))
                (Reply [bp_with (-1) 0 "runtime.startpanic";
                        bp_with 7 1 "main.f"]) globals0 in
  next.1 = Panic nil_deref
  /\ registry next.2 !! 7 = None
  /\ vim next.2 = vim globals0.
Proof.
  refine (proj1 (stop_naming_unregistered_id_panics
            (fun _ => no_presentation) globals0
            {| procPid := 4242;
               breakpoints :=
                 Some {[ (-1) := bp_with (-1) 0 "runtime.startpanic" ]} |}
            {[ (-1) := bp_with (-1) 0 "runtime.startpanic" ]}
            stopped_state
            [bp_with (-1) 0 "runtime.startpanic"; bp_with 7 1 "main.f"]
            (bp_with 7 1 "main.f") _ _ _ _ _));
    try reflexivity.
  apply list_elem_of_further, list_elem_of_here.
Defined.

(** ** [nvim/buffer.go]: lines and bytes *)

Lemma string_length_app (a b : string) :
  String.length (a +:+ b) = (String.length a + String.length b)%nat.
Proof. induction a as [|c a IH]; sapp; cbn [String.length]; [done|]. by rewrite IH. Qed.

Lemma string_app_assoc (a b c : string) : (a +:+ b) +:+ c = a +:+ b +:+ c.
Proof. induction a as [|x a IH]; sapp; [done|]. by rewrite IH. Qed.

Lemma Join_cons_cons x y l sep :
  Strings.Join (x :: y :: l) sep = x +:+ sep +:+ Strings.Join (y :: l) sep.
Proof. done. Qed.

Lemma Join_cons_nonempty x l sep :
  l <> [] -> Strings.Join (x :: l) sep = x +:+ sep +:+ Strings.Join l sep.
Proof. by destruct l. Qed.

Lemma Join_cons_char c h t sep :
  Strings.Join (String c h :: t) sep = String c (Strings.Join (h :: t) sep).
Proof. destruct t; [done|]. rewrite !Join_cons_cons. by sapp. Qed.

Lemma Join_Split s sep :
  Strings.Join (Strings.Split s sep) (String sep EmptyString) = s.
Proof.
  induction s as [|c r IH]; [done|].
  cbn [Strings.Split]. destruct (Ascii.eqb c sep) eqn:Hc.
  - apply Ascii.eqb_eq in Hc as ->.
    rewrite Join_cons_nonempty by apply Split_nonempty.
    sapp. by rewrite IH.
  - destruct (Strings.Split r sep) as [|h t] eqn:E.
    + by apply Split_nonempty in E.
    + by rewrite Join_cons_char, IH.
Qed.

Lemma Split_no_sep s sep : has_byte sep s = false -> Strings.Split s sep = [s].
Proof.
  induction s as [|c r IH]; [done|].
  cbn [has_byte Strings.Split]. intros [Hc Hr]%orb_false_iff.
  by rewrite Hc, (IH Hr).
Qed.

Lemma Split_app x r sep :
  has_byte sep x = false ->
  Strings.Split (x +:+ String sep r) sep = x :: Strings.Split r sep.
Proof.
  induction x as [|c x IH]; sapp.
  - intros _. cbn [Strings.Split]. by rewrite Ascii.eqb_refl.
  - cbn [has_byte Strings.Split]. intros [Hc Hx]%orb_false_iff.
    by rewrite Hc, (IH Hx).
Qed.

Lemma Join_app l k sep :
  l <> [] -> k <> [] ->
  Strings.Join (l ++ k) sep = Strings.Join l sep +:+ sep +:+ Strings.Join k sep.
Proof.
  intros Hl Hk. induction l as [|x l IH]; [done|].
  destruct l as [|y l].
  - cbn [app]. by rewrite Join_cons_nonempty.
  - cbn [app] in *. rewrite !Join_cons_cons, IH by done.
    by rewrite !string_app_assoc.
Qed.

(** X20: splitting a byte slice into buffer lines and joining the lines
    again gives the byte slice back. *)
Theorem ToByteSlice_ToBufferLines (byt : string) :
  ToByteSlice (ToBufferLines byt) = byt.
Proof. apply Join_Split. Qed.

(** X21: joining lines that hold no newline byte and splitting the
    result gives the lines back, except that no lines at all come back
    as one empty line, which is also what a buffer holds after it was
    given no lines. *)
Theorem ToBufferLines_ToByteSlice (byt : list string) :
  Forall (fun l => has_byte newline l = false) byt ->
  ToBufferLines (ToByteSlice byt) = at_least_one_line byt.
Proof.
  unfold ToBufferLines, ToByteSlice.
  induction 1 as [|x l Hx Hl IH]; [done|].
  destruct l as [|y l].
  - cbn. by apply Split_no_sep.
  - rewrite Join_cons_cons. sapp. rewrite (Split_app _ _ _ Hx). sapp. rewrite IH. done.
Qed.

Lemma ToBufferLines_ToByteSlice_witness :
  ToBufferLines (ToByteSlice ["package main"; ""; "func main() {}"]%string)
  = ["package main"; ""; "func main() {}"]%string.
Proof.
  apply (ToBufferLines_ToByteSlice
           ["package main"; ""; "func main() {}"]%string).
  repeat constructor.
Defined.

(** ** [ByteOffset] *)

Lemma BufferLines_all v b bf :
  buffers v !! b = Some bf ->
  BufferLines b 0 (-1) true v = (Done (lines bf, nil), v).
Proof.
  intros Hb. unfold BufferLines. run_M. rewrite Hb.
  unfold index. change (-1 <? 0) with true. change (0 <? 0) with false.
  cbv iota.
  replace (len (lines bf) + 1 + -1) with (len (lines bf)) by lia.
  assert (0 <= len (lines bf)) by (unfold len; lia).
  rewrite (proj2 (Z.ltb_ge (len (lines bf)) 0)) by lia.
  rewrite Z.ltb_irrefl. cbn [orb andb].
  rewrite (Z.min_r _ 0), Z.max_id, Z.min_id, (Z.max_r 0) by lia.
  rewrite Z.sub_0_r. change (Z.to_nat 0) with 0%nat. cbn [drop].
  rewrite Z.ltb_irrefl, drop_0. by rewrite take_len.
Qed.

Lemma WindowCursor_valid v w wn :
  windows v !! w = Some wn -> WindowCursor w v = (Done (cursor wn, nil), v).
Proof. intros Hw. unfold WindowCursor. run_M. by rewrite Hw. Qed.

(** The loop finds the cursor line after the lines [xs] before it. *)
Lemma ByteOffset_loop_finds xs : forall rest cursor0 line offset,
  cursor0 = line + len xs -> rest <> [] ->
  ByteOffset_loop (xs ++ rest) cursor0 line offset
  = offset + bytes_of (ToByteSlice (xs ++ [EmptyString])) + 1.
Proof.
  induction xs as [|x xs IH]; intros rest cursor0 line offset Hc Hrest.
  - destruct rest as [|r rest]; [done|]. cbn [app ByteOffset_loop].
    change (len []) with 0 in Hc.
    rewrite (proj2 (Z.eqb_eq line cursor0)) by lia.
    change (bytes_of (ToByteSlice [EmptyString])) with 0. lia.
  - cbn [app ByteOffset_loop].
    assert (0 <= len xs) by (unfold len; lia).
    assert (Hlen : len (x :: xs) = 1 + len xs)
      by (unfold len; cbn [length]; lia).
    rewrite (proj2 (Z.eqb_neq line cursor0)) by lia.
    rewrite (IH rest cursor0) by (done || lia).
    unfold ToByteSlice. rewrite (Join_cons_nonempty x (xs ++ [EmptyString]))
      by (intros [? [=]]%app_eq_nil).
    unfold bytes_of. rewrite !string_length_app. cbn [String.length]. lia.
Qed.

(** X22: for a window whose cursor is on a line of the buffer,
    [ByteOffset] returns the number of bytes of the lines before the
    cursor line, each counted with its newline, plus the cursor column:
    the special case for the first line and the loop agree.  The editor
    is left as it was. *)
Theorem ByteOffset_bytes_before_cursor
    (v : Vim) (b w : Z) (bf : Buf) (wn : Win) :
  buffers v !! b = Some bf ->
  windows v !! w = Some wn ->
  1 <= (cursor wn).1 <= len (lines bf) ->
  let before := take (Z.to_nat ((cursor wn).1 - 1)) (lines bf) in
  ByteOffset b w v
  = (Done (bytes_of (ToByteSlice (before ++ [EmptyString])) + (cursor wn).2,
           nil), v).
Proof.
  intros Hb Hw Hc before. unfold ByteOffset. run_M.
  rewrite (WindowCursor_valid _ _ _ Hw), (BufferLines_all _ _ _ Hb).
  destruct (Z.eqb_spec (cursor wn).1 1) as [H1|H1].
  - unfold before. rewrite H1. change (Z.to_nat (1 - 1)) with 0%nat.
    rewrite take_0. change (bytes_of (ToByteSlice ([] ++ [EmptyString]))) with 0.
    do 3 f_equal. lia.
  - rewrite <- (take_drop (Z.to_nat ((cursor wn).1 - 1)) (lines bf)) at 1.
    fold before.
    assert (Hlen : len before = (cursor wn).1 - 1).
    { unfold before, len in *. rewrite length_take. lia. }
    rewrite (ByteOffset_loop_finds before); [do 3 f_equal; lia|lia|].
    intros Hd. apply (f_equal length) in Hd.
    rewrite length_drop in Hd. unfold len in Hc. cbn in Hd. lia.
Qed.

Lemma ByteOffset_bytes_before_cursor_witness :
  ByteOffset 3 2 vim_two_lines = (Done (16, nil), vim_two_lines).
Proof.
  apply (ByteOffset_bytes_before_cursor vim_two_lines 3 2 buf_two_lines
           {| wbuffer := 3; cursor := (2, 3) |});
    [reflexivity|reflexivity|vm_compute; split; discriminate].
Defined.

(** ** [Write], [Truncate] and [Reset] *)

Lemma BufferLineCount_valid v b bf :
  buffers v !! b = Some bf ->
  BufferLineCount b v = (Done (len (lines bf), nil), v).
Proof. intros Hb. unfold BufferLineCount. run_M. by rewrite Hb. Qed.

(** X23: on a modifiable buffer of two lines or more, [Write] appends:
    it returns [nil], the buffer holds its former lines followed by the
    lines of [p], and its text is the former text, a newline and [p].
    What the current line is does not matter. *)
Theorem Buffer_Write_appends
    (v : Vim) (b : Z) (bf : Buf) (CurrentLine : string * error) (p : string) :
  buffers v !! b = Some bf ->
  modifiable bf = true ->
  1 < len (lines bf) ->
  Buffer_Write b CurrentLine p v
  = (Done nil,
     set_buffers <[b := {| lines := lines bf ++ ToBufferLines p;
                           modifiable := true |}]> v)
  /\ ToByteSlice (lines bf ++ ToBufferLines p)
     = ToByteSlice (lines bf) +:+ String newline p.
Proof.
  intros Hb Hm Hn. split.
  - unfold Buffer_Write, Buffer_lineCount. run_M.
    rewrite (BufferLineCount_valid _ _ _ Hb).
    rewrite (proj2 (Z.eqb_neq (len (lines bf)) 1)) by lia.
    unfold nil. cbv beta iota.
    rewrite (SetBufferLines_tail v b bf) by (done || lia).
    rewrite take_len, at_least_one_line_nonempty; [done|].
    intros [_ H]%app_eq_nil. by apply Split_nonempty in H.
  - unfold ToByteSlice. rewrite Join_app.
    + unfold ToBufferLines. by rewrite Join_Split.
    + intros H. rewrite H in Hn. done.
    + apply Split_nonempty.
Qed.

Lemma Buffer_Write_appends_witness :
  Buffer_Write 3 (EmptyString, nil) "// end" vim_two_lines
  = (Done nil,
     set_buffers <[3 := {| lines := lines buf_two_lines ++ ToBufferLines "// end";
                           modifiable := true |}]> vim_two_lines).
Proof.
  refine (proj1 (Buffer_Write_appends vim_two_lines 3 buf_two_lines
                   (EmptyString, nil) "// end" _ _ _)); reflexivity.
Defined.

(** [Write] on a modifiable buffer of one line. *)
Lemma Buffer_Write_single
    (v : Vim) (b : Z) (bf : Buf) (l current p : string) :
  buffers v !! b = Some bf ->
  modifiable bf = true ->
  lines bf = [l] ->
  Buffer_Write b (current, nil) p v
  = (Done nil,
     set_buffers
       <[b := {| lines := if decide (current = EmptyString)
                          then ToBufferLines p
                          else l :: ToBufferLines p;
                 modifiable := true |}]> v).
Proof.
  intros Hb Hm Hl. unfold Buffer_Write, Buffer_lineCount. run_M.
  rewrite (BufferLineCount_valid _ _ _ Hb), Hl.
  change (len [l] =? 1) with true. unfold nil. cbv beta iota.
  destruct current as [|c current]; cbn [String.length Nat.eqb].
  - rewrite (SetBufferLines_tail v b bf); [|done|done|rewrite Hl; done].
    change (Z.to_nat 0) with 0%nat. rewrite take_0. cbn [app].
    rewrite at_least_one_line_nonempty by apply Split_nonempty. done.
  - rewrite (SetBufferLines_tail v b bf); [|done|done|rewrite Hl; done].
    rewrite Hl. cbn. done.
Qed.

(** X24: on a modifiable buffer of one line, [Write] goes by the current
    line of the editor, not by the buffer's own line: when the current
    line is empty the line of the buffer is replaced by the lines of [p],
    whatever it holds, and otherwise the lines of [p] follow it. *)
Theorem Buffer_Write_one_line
    (v : Vim) (b : Z) (bf : Buf) (l current p : string) :
  buffers v !! b = Some bf ->
  modifiable bf = true ->
  lines bf = [l] ->
  Buffer_Write b (current, nil) p v
  = (Done nil,
     set_buffers
       <[b := {| lines := if decide (current = EmptyString)
                          then ToBufferLines p
                          else l :: ToBufferLines p;
                 modifiable := true |}]> v).
Proof. apply Buffer_Write_single. Qed.

Lemma Buffer_Write_one_line_witness :
  Buffer_Write 1 (EmptyString, nil) "b"
    (set_buffers <[1 := {| lines := ["a"]%string; modifiable := true |}]> vim0)
  = (Done nil,
     set_buffers <[1 := {| lines := ["b"]%string; modifiable := true |}]>
       (set_buffers <[1 := {| lines := ["a"]%string; modifiable := true |}]>
          vim0)).
Proof.
  apply (Buffer_Write_one_line
           (set_buffers <[1 := {| lines := ["a"]%string; modifiable := true |}]>
              vim0)
           1 {| lines := ["a"]%string; modifiable := true |} "a" "" "b");
    reflexivity.
Defined.

(** X25: [Reset] leaves a modifiable buffer with one empty line, and a
    [Write] of [p] that follows it, the current line being that empty
    line, leaves the buffer holding the lines of [p]: its text is [p]. *)
Theorem Buffer_Reset_then_Write
    (v : Vim) (b : Z) (bf : Buf) (p : string) :
  buffers v !! b = Some bf ->
  modifiable bf = true ->
  Buffer_Reset b v
  = (Done tt,
     set_buffers <[b := {| lines := [EmptyString]; modifiable := true |}]> v)
  /\ (Buffer_Reset b;; Buffer_Write b (EmptyString, nil) p) v
     = (Done nil,
        set_buffers <[b := {| lines := ToBufferLines p;
                              modifiable := true |}]> v)
  /\ ToByteSlice (ToBufferLines p) = p.
Proof.
  intros Hb Hm.
  assert (Hreset : Buffer_Reset b v
    = (Done tt,
       set_buffers <[b := {| lines := [EmptyString]; modifiable := true |}]> v)).
  { unfold Buffer_Reset, Buffer_Truncate. run_M.
    rewrite (SetBufferLines_tail v b bf);
      [|done|done|unfold len; lia].
    change (Z.to_nat 0) with 0%nat. by rewrite take_0. }
  split; [done|]. split; [|apply Join_Split].
  run_M. rewrite Hreset.
  erewrite (Buffer_Write_single _ b _ EmptyString EmptyString p);
    [|cbn [buffers set_buffers]; apply lookup_insert_eq|done|done].
  rewrite decide_True by done. rewrite set_buffers_set_buffers.
  unfold set_buffers. do 2 f_equal. by rewrite insert_insert_eq.
Qed.

Lemma Buffer_Reset_then_Write_witness :
  (Buffer_Reset 3;; Buffer_Write 3 (EmptyString, nil) "package x") vim_two_lines
  = (Done nil,
     set_buffers <[3 := {| lines := ToBufferLines "package x";
                           modifiable := true |}]> vim_two_lines).
Proof.
  refine (proj1 (proj2 (Buffer_Reset_then_Write vim_two_lines 3 buf_two_lines
                          "package x" _ _))); reflexivity.
Defined.

Lemma ByteOffset_loop_misses ls : forall cursor0 line offset,
  cursor0 < line ->
  ByteOffset_loop ls cursor0 line offset
  = offset + bytes_of (ToByteSlice (ls ++ [EmptyString])).
Proof.
  induction ls as [|x ls IH]; intros cursor0 line offset Hc.
  - cbn [app ByteOffset_loop].
    change (bytes_of (ToByteSlice [EmptyString])) with 0. lia.
  - cbn [app ByteOffset_loop].
    rewrite (proj2 (Z.eqb_neq line cursor0)) by lia.
    rewrite IH by lia.
    unfold ToByteSlice. rewrite (Join_cons_nonempty x (ls ++ [EmptyString]))
      by (intros [? [=]]%app_eq_nil).
    unfold bytes_of. rewrite !string_length_app. cbn [String.length]. lia.
Qed.

(** X26: [ByteOffset] drops the errors of the editor: for a window
    handle the editor does not know it returns, with a [nil] error, the
    number of bytes of the whole text of the buffer. *)
Theorem ByteOffset_invalid_window (v : Vim) (b w : Z) (bf : Buf) :
  buffers v !! b = Some bf ->
  lines bf <> [] ->
  windows v !! w = None ->
  ByteOffset b w v = (Done (bytes_of (ToByteSlice (lines bf)), nil), v).
Proof.
  intros Hb Hls Hw. unfold ByteOffset, WindowCursor. run_M. rewrite Hw.
  rewrite (BufferLines_all _ _ _ Hb). cbn [fst snd].
  change (0 =? 1) with false. cbv iota.
  rewrite ByteOffset_loop_misses by lia.
  unfold ToByteSlice. rewrite Join_app by done.
  unfold bytes_of. rewrite !string_length_app.
  cbn [Strings.Join String.length]. do 3 f_equal. lia.
Qed.

Lemma ByteOffset_invalid_window_witness :
  ByteOffset 3 9 vim_two_lines = (Done (27, nil), vim_two_lines).
Proof.
  apply (ByteOffset_invalid_window vim_two_lines 3 9 buf_two_lines);
    [reflexivity|discriminate|reflexivity].
Defined.

(** X27: on a modifiable buffer [Truncate(n)] keeps the first [n] lines
    when the buffer has that many, one empty line standing for none;
    when [n] is more than the buffer has, the editor refuses the index,
    the error is dropped and the buffer stays as it is. *)
Theorem Buffer_Truncate_keeps_prefix (v : Vim) (b n : Z) (bf : Buf) :
  buffers v !! b = Some bf ->
  modifiable bf = true ->
  (0 <= n <= len (lines bf) ->
   Buffer_Truncate b n v
   = (Done tt,
      set_buffers
        <[b := {| lines := at_least_one_line (take (Z.to_nat n) (lines bf));
                  modifiable := true |}]> v))
  /\ (len (lines bf) < n -> Buffer_Truncate b n v = (Done tt, v)).
Proof.
  intros Hb Hm. split; intros Hn.
  - unfold Buffer_Truncate. run_M.
    rewrite (SetBufferLines_tail v b bf) by done.
    by rewrite app_nil_r.
  - unfold Buffer_Truncate, SetBufferLines. run_M. rewrite Hb.
    assert (0 <= len (lines bf)) by (unfold len; lia).
    unfold index at 1 2. rewrite (proj2 (Z.ltb_ge n 0)) by lia.
    rewrite (proj2 (Z.ltb_lt (len (lines bf)) n)) by lia.
    by rewrite orb_true_r.
Qed.

Lemma Buffer_Truncate_keeps_prefix_witness :
  Buffer_Truncate 3 1 vim_two_lines
  = (Done tt,
     set_buffers
       <[3 := {| lines := ["package main"]%string; modifiable := true |}]>
       vim_two_lines)
  /\ Buffer_Truncate 3 5 vim_two_lines = (Done tt, vim_two_lines).
Proof.
  destruct (Buffer_Truncate_keeps_prefix vim_two_lines 3 1 buf_two_lines
              eq_refl eq_refl) as [H1 _].
  destruct (Buffer_Truncate_keeps_prefix vim_two_lines 3 5 buf_two_lines
              eq_refl eq_refl) as [_ H5].
  split; [apply H1|apply H5]; vm_compute; [split; discriminate|reflexivity].
Defined.

(** ** The wrappers and the goroutines they start *)

Lemma wrapper_go f l s :
  wrapper f l s
  = (Done tt, {| goroutines := goroutines s ++ [started f l];
                 shared := shared s |}).
Proof. by destruct f. Qed.

Lemma run_cons_step i rest s s1 :
  sched i s = (Done tt, s1) -> run (Step i :: rest) s = run rest s1.
Proof. intros H. cbn [run]. run_M. by rewrite H. Qed.

(** One step of goroutine [i], alone on the processor. *)
Lemma sched_step gs bps i t t' bps' :
  (i < length gs)%nat ->
  gstep t bps = (Done t', bps') ->
  sched i {| goroutines := <[i := t]> gs; shared := bps |}
  = (Done tt, {| goroutines := <[i := t']> gs; shared := bps' |}).
Proof.
  intros Hi Hstep. unfold sched. run_M. cbn [goroutines shared].
  rewrite list_lookup_insert_eq by done. rewrite Hstep.
  by rewrite list_insert_insert_eq.
Qed.

Lemma replicate_ge_S {A} (n m : nat) (x : A) :
  (S m <= n)%nat -> exists n', n = S n' /\ (m <= n')%nat.
Proof. intros H. destruct n as [|n']; [lia|]. exists n'. split; [done|lia]. Qed.

(** A goroutine whose loop is over returns, and further steps change
    nothing. *)
Lemma run_returns n : forall gs bps i f p r,
  (i < length gs)%nat -> (1 <= n)%nat \/ r = true ->
  run (replicate n (Step i))
    {| goroutines := <[i := {| func := f; todo := []; at_place := p;
                               returned := r |}]> gs;
       shared := bps |}
  = (Done tt,
     {| goroutines := <[i := {| func := f; todo := []; at_place := p;
                                returned := true |}]> gs;
        shared := bps |}).
Proof.
  induction n as [|n IH]; intros gs bps i f p r Hi Hn.
  - destruct Hn as [Hn| ->]; [lia|]. done.
  - cbn [replicate].
    erewrite run_cons_step; [|by apply sched_step].
    cbn [func todo at_place]. apply IH; auto.
Qed.

Lemma alter_alter_reconciled (bps : gmap Z Breakpoint) bp cached :
  bps !! ID bp = Some cached ->
  TotalHitCount cached ≠ TotalHitCount bp ->
  alter (set_HitCount (HitCount bp)) (ID bp)
    (alter (set_TotalHitCount (TotalHitCount bp)) (ID bp) bps)
  = <[ID bp := reconciled bp cached]> bps.
Proof.
  intros Hc Hd. unfold reconciled. rewrite decide_True by done.
  apply map_eq. intros i. rewrite !lookup_alter, lookup_insert.
  repeat case_decide; try congruence. by rewrite Hc.
Qed.

Lemma reconcile_cons_state bps bp cached rest :
  bps !! ID bp = Some cached ->
  (reconcile (bp :: rest) bps).2
  = (reconcile rest (<[ID bp := reconciled bp cached]> bps)).2.
Proof.
  intros Hc. cbn [reconcile]. run_M. rewrite (reconcile1_registered _ _ _ Hc).
  by destruct (reconcile rest (<[ID bp := reconciled bp cached]> bps))
    as [[rs|why] bps'].
Qed.

(** Small steps against big step: a goroutine that runs its loop by
    itself leaves the registry as [reconcile] leaves it, and returns. *)
Lemma run_alone l : forall n gs bps i f,
  (i < length gs)%nat ->
  registered bps l ->
  (3 * length l + 1 <= n)%nat ->
  run (replicate n (Step i))
    {| goroutines := <[i := {| func := f; todo := l; at_place := AtTest;
                               returned := false |}]> gs;
       shared := bps |}
  = (Done tt,
     {| goroutines := <[i := {| func := f; todo := []; at_place := AtTest;
                                returned := true |}]> gs;
        shared := (reconcile l bps).2 |}).
Proof.
  induction l as [|bp rest IH]; intros n gs bps i f Hi Hreg Hn.
  - cbn [length] in Hn. apply run_returns; [done|left; lia].
  - inversion Hreg as [|? ? [cached Hc] Hrest]; subst.
    rewrite (reconcile_cons_state _ _ _ _ Hc).
    cbn [length] in Hn.
    destruct (replicate_ge_S n (3 * length rest + 3) (Step i)) as (n1 & -> & Hn1);
      [lia|].
    destruct (replicate_ge_S n1 (3 * length rest + 2) (Step i)) as (n2 & -> & Hn2);
      [lia|].
    cbn [replicate].
    erewrite run_cons_step;
      [|apply sched_step; [done|]; unfold gstep; run_M; cbn [todo at_place func];
        rewrite Hc; reflexivity].
    destruct (decide (TotalHitCount cached ≠ TotalHitCount bp)) as [Hd|Hd].
    + destruct (replicate_ge_S n2 (3 * length rest + 1) (Step i))
        as (n3 & -> & Hn3); [lia|].
      cbn [replicate].
      erewrite run_cons_step;
        [|apply sched_step; [done|]; unfold gstep; run_M;
          cbn [todo at_place func]; rewrite Hc; reflexivity].
      erewrite run_cons_step;
        [|apply sched_step; [done|]; unfold gstep; run_M;
          cbn [todo at_place func];
          rewrite lookup_alter, decide_True, Hc by done; reflexivity].
      rewrite (alter_alter_reconciled _ _ _ Hc Hd).
      apply IH; [done|by apply registered_insert|lia].
    + erewrite run_cons_step;
        [|apply sched_step; [done|]; unfold gstep; run_M;
          cbn [todo at_place func]; rewrite Hc; reflexivity].
      assert (Hid : <[ID bp := reconciled bp cached]> bps = bps).
      { unfold reconciled. rewrite decide_False by done. by apply insert_id. }
      rewrite Hid. apply IH; [done|done|lia].
Qed.

Lemma registered_after p bps l :
  registered bps l -> registered (reconcile p bps).2 l.
Proof.
  intros H. destruct (reconcile_lookup_any p bps) as (done & Hlook).
  eapply Forall_impl; [exact H|]. intros x [c Hc]. cbn beta.
  rewrite Hlook, Hc. by eexists.
Qed.

Lemma registered_listing_of bps f l :
  registered bps l -> registered bps (listing_of f l).
Proof.
  intros H. destruct f; cbn [listing_of]; try constructor;
    unfold registered; by rewrite sort_Sort_perm.
Qed.

Lemma in_flight_app s t :
  in_flight {| goroutines := goroutines s ++ [t]; shared := shared s |}
  = (in_flight s
     + (if mutating (func t) && negb (returned t) then 1 else 0))%nat.
Proof.
  unfold in_flight. cbn [goroutines]. rewrite filter_app, length_app.
  f_equal. rewrite filter_cons, filter_nil.
  destruct (mutating (func t) && negb (returned t)); by case_decide.
Qed.

(** One command, issued and run by itself until it has returned. *)
Lemma serially_one f l s :
  registered (shared s) (listing_of f l) ->
  run (Command f l
       :: replicate (3 * length (listing_of f l) + 1)
            (Step (length (goroutines s)))) s
  = (Done tt,
     {| goroutines :=
          goroutines s ++ [ {| func := f; todo := []; at_place := AtTest;
                               returned := true |} ];
        shared := (reconcile (listing_of f l) (shared s)).2 |}).
Proof.
  intros Hreg. cbn [run]. run_M. rewrite wrapper_go.
  assert (Hins : forall t t' : goroutine,
    <[length (goroutines s) := t']> (goroutines s ++ [t])
    = goroutines s ++ [t']).
  { intros t t'.
    replace (length (goroutines s)) with (length (goroutines s) + 0)%nat by lia.
    by rewrite insert_app_r. }
  rewrite <- (Hins (started f l) (started f l)). unfold started.
  rewrite run_alone; [by rewrite Hins|rewrite length_app; cbn; lia|done|lia].
Qed.

(** C8 (as amended): there is no mutual exclusion.  Every command is
    started at once as a goroutine of its own, whatever is in flight: no
    wrapper refuses, queues or waits, and a session-changing command adds
    one to those in flight.  When commands are serialized, each goroutine
    having returned before the next command is issued, no goroutine
    panics on registered listings, the registry ends as the
    reconciliation passes of the commands leave it, one whole pass after
    the other in the order of issue, and what was in flight before is
    all that is in flight after. *)
Theorem commands_start_at_once_and_serialize
    (s : Session) (f : Goroutine) (l : list Breakpoint)
    (cmds : list (Goroutine * list Breakpoint)) :
  (wrapper f l s
   = (Done tt, {| goroutines := goroutines s ++ [started f l];
                  shared := shared s |})
   /\ in_flight (wrapper f l s).2
      = (in_flight s + (if mutating f then 1 else 0))%nat)
  /\ (Forall (fun c => registered (shared s) (listing_of c.1 c.2)) cmds ->
      exists s',
        serially cmds s = (Done tt, s')
        /\ shared s' = passes cmds (shared s)
        /\ in_flight s' = in_flight s).
Proof.
  split.
  - rewrite wrapper_go. split; [done|]. cbn [snd].
    rewrite in_flight_app. cbn [started func returned negb].
    by rewrite andb_true_r.
  - revert s. induction cmds as [|[f' l'] cmds IH]; intros s Hreg.
    + exists s. done.
    + apply Forall_cons in Hreg as [Hfl Hrest]. cbn [fst snd] in Hfl.
      cbn [serially]. run_M. rewrite (serially_one f' l' s Hfl).
      set (s1 := {| goroutines := goroutines s ++ [_]; shared := _ |}).
      destruct (IH s1) as (s' & Hrun & Hshared & Hfly).
      { eapply Forall_impl; [exact Hrest|]. intros c Hc. cbn beta.
        by apply registered_after. }
      exists s'. split; [done|]. split; [done|].
      rewrite Hfly. unfold s1.
      change (in_flight
                {| goroutines := goroutines s ++
                     [{| func := f'; todo := []; at_place := AtTest;
                         returned := true |}];
                   shared := (reconcile (listing_of f' l') (shared s)).2 |})
        with (in_flight
                {| goroutines :=
                     goroutines {| goroutines := goroutines s;
                                   shared := (reconcile (listing_of f' l')
                                                (shared s)).2 |}
                     ++ [{| func := f'; todo := []; at_place := AtTest;
                            returned := true |}];
                   shared := shared {| goroutines := goroutines s;
                                       shared := (reconcile (listing_of f' l')
                                                    (shared s)).2 |} |}).
      rewrite in_flight_app. cbn [returned negb]. rewrite andb_false_r.
      unfold in_flight. cbn [goroutines]. lia.
Qed.

Lemma commands_start_at_once_and_serialize_witness :
  exists s',
    serially [(G_delveContinue, [answer 6]); (G_delveContinue, [answer 7])]
      session0 = (Done tt, s')
    /\ shared s'
       = passes [(G_delveContinue, [answer 6]); (G_delveContinue, [answer 7])]
           (shared session0)
    /\ in_flight s' = in_flight session0.
Proof.
  apply (proj2 (commands_start_at_once_and_serialize session0
                  G_delveContinue []
                  [(G_delveContinue, [answer 6]);
                   (G_delveContinue, [answer 7])])).
  repeat constructor; vm_compute; eexists; reflexivity.
Defined.

(** C8 as stated fails.  A second continue issued while the first is
    outstanding is started like the first: two are in flight.  Their
    goroutines then take turns at the registry, and breakpoint 1 ends
    with the cumulative count of the second answer, 7, and the
    per-goroutine counts of the first, 6: a descriptor that neither
    order of the two passes produces. *)
Lemma overlapping_continues_tear_registry :
  let issued := run two_continues session0 in
  let torn := run (two_continues ++ taking_turns) session0 in
  let first_then_second :=
    passes [(G_delveContinue, [answer 6]); (G_delveContinue, [answer 7])]
      (shared session0) in
  let second_then_first :=
    passes [(G_delveContinue, [answer 7]); (G_delveContinue, [answer 6])]
      (shared session0) in
  (issued.1 = Done tt /\ in_flight issued.2 = 2%nat)
  /\ (torn.1 = Done tt /\ in_flight torn.2 = 0%nat
      /\ TotalHitCount <$> shared torn.2 !! 1 = Some 7
      /\ (shared torn.2 !! 1 ≫= fun c => HitCount c !! "1"%string) = Some 6)
  /\ (TotalHitCount <$> first_then_second !! 1 = Some 7
      /\ (first_then_second !! 1 ≫= fun c => HitCount c !! "1"%string) = Some 7)
  /\ (TotalHitCount <$> second_then_first !! 1 = Some 6
      /\ (second_then_first !! 1 ≫= fun c => HitCount c !! "1"%string) = Some 6).
Proof. repeat split; vm_compute; reflexivity. Qed.
